(** * BookMentorAI RAG chatbot: the notebook's pipeline, embedded and verified

    The notebook [chat.ipynb] retrieves documents with an ensemble retriever,
    reranks them with a cross encoder ([query_doc]), joins the top documents
    into a context string, streams an answer from the chat backend
    ([callModel]) and repeats this in a prompt loop ([while True]).

    Python values are embedded as follows.
    - [str] is [string]; only ASCII letters matter for the terminator check.
    - [int] is [Z]; list lengths are [nat].
    - An exception is a value of [Exn]; a call that may raise returns
      [PyResult].
    - The cross encoder's scores are floats that the code only compares
      ([==] and [<] inside [sorted]); they are kept abstract as a type with
      two boolean comparisons.
    - A call to a collaborator (retriever, cross encoder, chat backend)
      either returns or raises. *)

From Stdlib Require Import ZArith QArith Ascii String List Lia Bool.
From stdpp Require Import base list strings gmap sets sorting.

Local Open Scope string_scope.
Local Open Scope list_scope.
Local Open Scope Z_scope.

(** ** Python exceptions and fallible calls *)

Inductive Exn : Type :=
| TypeError                      (* raised by [<] on two Documents *)
| ScorerError (name : string)    (* raised inside [cross_encoder.predict] *)
| ExternalError (name : string). (* raised by a collaborator: retriever, backend *)

Inductive PyResult (A : Type) : Type :=
| Ok (a : A)
| Raise (e : Exn).
Arguments Ok {A} a.
Arguments Raise {A} e.

#[global] Instance PyResult_ret : MRet PyResult := λ A a, Ok a.
#[global] Instance PyResult_bind : MBind PyResult := λ A B k r,
  match r with
  | Ok a => k a
  | Raise e => Raise e
  end.

(** ** Documents

    A langchain [Document] carries an optional id, a metadata dict and the
    text. It is a pydantic model: [==] compares the fields, and there is no
    ordering, so [<] on two documents raises [TypeError]. *)

Record Document : Type := mkDocument {
  doc_id : option string;
  metadata : gmap string string;
  page_content : string
}.

#[global] Instance Document_eq_dec : EqDecision Document.
Proof. solve_decision. Defined.

Definition doc_eqb (a b : Document) : bool := bool_decide (a = b).

(** [l[:k]] for a Python int [k]: a negative [k] counts from the end, and
    both ends are clamped to the list. *)
Definition py_slice_to {A} (l : list A) (k : Z) : list A :=
  if k <? 0 then take (Z.to_nat (Z.of_nat (length l) + k)) l
  else take (Z.to_nat k) l.

(** ** Cross encoder reranking: [query_doc] *)

(** Scores that are numbers (no NaN): [==] is equality and [<] is a strict
    order. *)
Record ScoreOrder {Score : Type} (eqb ltb : Score → Score → bool) : Prop := {
  score_eqb_eq : ∀ a b, eqb a b = true ↔ a = b;
  score_ltb_irrefl : ∀ a, ltb a a = false;
  score_ltb_trans : ∀ a b c, ltb a b = true → ltb b c = true → ltb a c = true
}.

Section Reranker.
Context {Score : Type}.
(** [==] and [<] on two scores. *)
Variable score_eqb : Score → Score → bool.
Variable score_ltb : Score → Score → bool.
(** [cross_encoder.predict] either raises or returns one score per pair,
    in the order of the pairs. [predict] is the score of one (query,
    passage) pair; [predict_error] tells whether the call on a batch of
    pairs raises, and the class of the exception. *)
Variable predict : string → string → Score.
Variable predict_error : list (string * string) → option string.

(** [(s1, d1) < (s2, d2)] on Python tuples: the first position where the
    two differ under [==] decides, with [<] on that position; two tuples
    equal everywhere are not less. *)
Definition tuple_lt (x y : Score * Document) : PyResult bool :=
  if negb (score_eqb x.1 y.1) then Ok (score_ltb x.1 y.1)
  else if negb (doc_eqb x.2 y.2) then Raise TypeError
  else Ok false.

(** [list.sort] is a stable ascending sort that only uses [<]; CPython
    sorts a short list by inserting each element, left to right, into the
    sorted prefix. It is embedded as that insertion, behind every element
    that is not greater than the new one. Which pairs get compared may
    differ from CPython's binary search, the outcome does not: for scores
    in a strict total order every stable sort returns the same list, and a
    comparison sort cannot place two tied candidates without comparing the
    documents of some tied pair ([sort_into_ok], [sort_into_clash]). *)
Fixpoint insert_sorted (x : Score * Document) (l : list (Score * Document))
  : PyResult (list (Score * Document)) :=
  match l with
  | [] => Ok [x]
  | y :: ys =>
      b ← tuple_lt x y;
      if b : bool then Ok (x :: y :: ys)
      else r ← insert_sorted x ys; Ok (y :: r)
  end.

Fixpoint sort_into (acc l : list (Score * Document))
  : PyResult (list (Score * Document)) :=
  match l with
  | [] => Ok acc
  | x :: xs => acc' ← insert_sorted x acc; sort_into acc' xs
  end.

Definition list_sort (l : list (Score * Document)) := sort_into [] l.

(** [sorted(it, reverse=True)]: the list is reversed, sorted ascending and
    reversed again, which keeps equal elements in their input order. *)
Definition sorted_reverse (l : list (Score * Document))
  : PyResult (list (Score * Document)) :=
  r ← list_sort (reverse l); Ok (reverse r).

(** [[(query, doc.page_content) for doc in docs]] *)
Definition query_doc_pair (query : string) (docs : list Document)
  : list (string * string) :=
  map (λ doc, (query, page_content doc)) docs.

(** [cross_encoder.predict(query_doc_pair)] *)
Definition cross_encoder_predict (pairs : list (string * string))
  : PyResult (list Score) :=
  match predict_error pairs with
  | Some name => Raise (ScorerError name)
  | None => Ok (map (λ p, predict p.1 p.2) pairs)
  end.

(** What [zip(result_cross_encodere, docs)] holds once [predict] has
    returned: each document with its score ([zip_scored]). *)
Definition scored (query : string) (docs : list Document)
  : list (Score * Document) :=
  map (λ doc, (predict query (page_content doc), doc)) docs.

Definition sorted_docs (query : string) (docs : list Document)
  : PyResult (list Document) :=
  result_cross_encodere ← cross_encoder_predict (query_doc_pair query docs);
  r ← sorted_reverse (zip result_cross_encodere docs); Ok (map snd r).

Definition query_doc (query : string) (docs : list Document) (top_k : Z)
  : PyResult (list Document) :=
  r ← sorted_docs query docs; Ok (py_slice_to r top_k).

(** Two scored candidates clash when [sorted] has to order their
    documents: the scores are equal and the documents differ. *)
Definition clash (x y : Score * Document) : bool :=
  score_eqb x.1 y.1 && negb (doc_eqb x.2 y.2).

Definition ties_agree (l : list (Score * Document)) : bool :=
  forallb (λ x, forallb (λ y, negb (clash x y)) l) l.

(** Ascending by score, as [list.sort] keeps its sorted prefix. *)
Definition asc (l : list (Score * Document)) : Prop :=
  StronglySorted (λ a b, score_ltb b.1 a.1 = false) l.

(** Descending by score: no element is followed by one with a greater
    score. *)
Definition desc (l : list (Score * Document)) : Prop :=
  StronglySorted (λ a b, score_ltb a.1 b.1 = false) l.

End Reranker.

(** ** Context assembly

    [context = "\n".join([doc.page_content for doc in top_docs])] *)

Definition newline : string := String (ascii_of_nat 10) EmptyString.

Definition build_context (top_docs : list Document) : string :=
  String.concat newline (map page_content top_docs).

(** ** Streaming generation: [callModel]

    A unit of the backend's stream is a dict with a [done] flag and a
    message content. The stream emits its units in order and then either
    ends or fails with an exception. *)

Record Chunk : Type := mkChunk {
  chunk_done : bool;         (* chunk["done"] *)
  message_content : string   (* chunk["message"]["content"] *)
}.

Record Response : Type := mkResponse {
  units : list Chunk;
  failure : option Exn
}.

(** What one run of the generator did: the values it yielded, in order,
    the units it never pulled from the backend, and the exception that
    ended it, if any. *)
Record Generated : Type := mkGenerated {
  yielded : list string;
  unread : list Chunk;
  raised : option Exn
}.

(** [for chunk in response: if chunk["done"] == False: yield ... else: break] *)
Fixpoint callModel_loop (response : list Chunk) (fail : option Exn) : Generated :=
  match response with
  | [] => mkGenerated [] [] fail
  | chunk :: rest =>
      if negb (chunk_done chunk) then
        let g := callModel_loop rest fail in
        mkGenerated (message_content chunk :: yielded g) (unread g) (raised g)
      else mkGenerated [] rest None
  end.

(** A unit that does not end the stream. *)
Definition pending (c : Chunk) : Prop := chunk_done c = false.

(** The units strictly before the first unit tagged done. *)
Fixpoint before_first_done (us : list Chunk) : list Chunk :=
  match us with
  | [] => []
  | c :: rest => if chunk_done c then [] else c :: before_first_done rest
  end.

(** The text shown for an answer: every yielded piece printed with [end=""]. *)
Definition answer_text (g : Generated) : string := String.concat "" (yielded g).

(** ** The terminator check: [user_input.lower() in ["quit", "exit"]]

    [str.lower] is embedded on ASCII letters. A code point outside ASCII
    never lowers to one of the letters of [quit] or [exit], so leaving the
    other bytes alone does not change the outcome of the check. *)

Definition ascii_lower (c : ascii) : ascii :=
  let n := nat_of_ascii c in
  if ((65 <=? n) && (n <=? 90))%nat then ascii_of_nat (n + 32) else c.

Fixpoint lower (s : string) : string :=
  match s with
  | EmptyString => EmptyString
  | String c rest => String (ascii_lower c) (lower rest)
  end.

Definition is_terminator (user_input : string) : bool :=
  existsb (String.eqb (lower user_input)) ["quit"; "exit"].

(** Case-insensitive comparison, as the words say it: two characters match
    when they are equal or are the two cases of one ASCII letter, and two
    strings match when they have the same length and match character by
    character. *)
Definition is_upper (c : ascii) : bool :=
  ((65 <=? nat_of_ascii c) && (nat_of_ascii c <=? 90))%nat.

Definition same_letter (a b : ascii) : bool :=
  Ascii.eqb a b
  || (is_upper a && (nat_of_ascii b =? nat_of_ascii a + 32)%nat)
  || (is_upper b && (nat_of_ascii a =? nat_of_ascii b + 32)%nat).

Fixpoint caseless_eqb (s t : string) : bool :=
  match s, t with
  | EmptyString, EmptyString => true
  | String a s', String b t' => same_letter a b && caseless_eqb s' t'
  | _, _ => false
  end.

(** ** The pipeline and the prompt loop *)

(** What the session writes, one constructor per [print] or [input]. *)
Inductive Event : Type :=
| EvBanner                    (* the greeting printed before the loop *)
| EvPrompt                    (* input("You: ") *)
| EvQuestion (query : string) (* print(f"... Question: {query}") *)
| EvAnswer                    (* print("... Answer:", end=" ") *)
| EvText (chunk : string)     (* print(chunk, end="") *)
| EvBlank                     (* print("\n") *)
| EvFarewell.                 (* print("... Chatbot session ended.") *)

(** How the cell ends: the loop is left by [break] and the cell finishes
    normally; or an exception leaves the loop; or [input] has no further
    line to return. *)
Inductive SessionEnd : Type :=
| Ended
| Uncaught (e : Exn)
| AwaitingInput.

(** The process-wide collaborators of the notebook. *)
Record Collaborators : Type := mkCollaborators {
  Score : Type;
  score_eqb : Score → Score → bool;
  score_ltb : Score → Score → bool;
  (** [cross_encoder.predict]: the score of one pair, and whether the call
      on a batch raises *)
  cross_encoder : string → string → Score;
  cross_encoder_error : list (string * string) → option string;
  (** [combined_retriever.get_relevant_documents(query, top_k=...)] *)
  combined_retriever : string → Z → PyResult (list Document);
  (** [ollama.chat(model, stream=True, messages=[system, user])] *)
  ollama_chat : string → string → Response;
  system_prompt : string
}.

Section Pipeline.
Variable env : Collaborators.

Definition reranker : string → list Document → Z → PyResult (list Document) :=
  query_doc (score_eqb env) (score_ltb env) (cross_encoder env)
    (cross_encoder_error env).

(** [CrossEncoderRerankingRetriever.get_relevant_documents] *)
Definition get_relevant_documents (query : string) (top_k : Z)
  : PyResult (list Document) :=
  retrieved_docs ← combined_retriever env query 20;
  reranker query retrieved_docs top_k.

(** The stream that [ollama.chat] opens for a context and a question. *)
Definition chat_response (context prompt : string) : Response :=
  ollama_chat env (system_prompt env)
    ("Context" +:+ context +:+ ", Question" +:+ prompt).

Definition callModel (context prompt : string) : Generated :=
  let response := chat_response context prompt in
  callModel_loop (units response) (failure response).

(** One turn: what it printed, and the exception that ended it, if any. *)
Definition answer_query (query : string) : list Event * option Exn :=
  match get_relevant_documents query 10 with
  | Raise e => ([], Some e)
  | Ok top_docs =>
      let context := build_context top_docs in
      let g := callModel context query in
      ([EvQuestion query; EvAnswer] ++ map EvText (yielded g)
         ++ match raised g with Some _ => [] | None => [EvBlank] end,
       raised g)
  end.

(** [while True: ...] over the lines that [input] returns. *)
Fixpoint conversation_loop (inputs : list string) : list Event * SessionEnd :=
  match inputs with
  | [] => ([EvPrompt], AwaitingInput)
  | user_input :: rest =>
      if is_terminator user_input then ([EvPrompt; EvFarewell], Ended)
      else
        match answer_query user_input with
        | (out, Some e) => (EvPrompt :: out, Uncaught e)
        | (out, None) =>
            let '(later, e) := conversation_loop rest in
            (EvPrompt :: out ++ later, e)
        end
  end.

Definition session (inputs : list string) : list Event * SessionEnd :=
  let '(out, e) := conversation_loop inputs in (EvBanner :: out, e).

(** What a run of turns writes: a prompt and the turn's output, per line. *)
Definition turns (lines : list string) : list Event :=
  lines ≫= (λ l, EvPrompt :: (answer_query l).1).

(** What the loop does with a line that is a query. *)
Definition query_turn (user_input : string) (rest : list string)
    : list Event * SessionEnd :=
  match answer_query user_input with
  | (out, Some e) => (EvPrompt :: out, Uncaught e)
  | (out, None) =>
      (EvPrompt :: out ++ (conversation_loop rest).1, (conversation_loop rest).2)
  end.
End Pipeline.

(** ** Rank fusion

    The notebook delegates fusion to langchain's [EnsembleRetriever]
    ([combined_retriever]), whose code is not part of the repository. *)

Record ScoredResult : Type := mkScoredResult {
  chunkId : string;
  score : Q;
  rank : nat
}.

Definition ConfigurationError : Exn := ExternalError "ConfigurationError".

(** Modelled from the spec: the accumulator of RankFusion. Each chunk at
    0-based rank [i] of a retriever's list contributes [w / (i + 1)] to an
    accumulator keyed by chunk id; [i] is the rank of the head of [l]. *)
Fixpoint accumulate (w : Q) (i : nat) (l : list ScoredResult)
    (acc : gmap string Q) : gmap string Q :=
  match l with
  | [] => acc
  | r :: rest =>
      accumulate w (S i) rest
        (<[chunkId r :=
             (default 0 (acc !! chunkId r) + w / inject_Z (Z.of_nat (S i)))%Q]> acc)
  end.

Definition chunk_ids (l : list ScoredResult) : gset string :=
  list_to_set (chunkId <$> l).

Definition rank_of (c : string) (l : list ScoredResult) : option nat :=
  fst <$> list_find (λ r, chunkId r = c) l.

Definition listed (c : string) (l : list ScoredResult) : nat :=
  match rank_of c l with Some _ => 1%nat | None => 0%nat end.

Definition compare_rank (a b : option nat) : comparison :=
  match a, b with
  | Some i, Some j => Nat.compare i j
  | Some _, None => Lt
  | None, Some _ => Gt
  | None, None => Eq
  end.

Definition then_by (c d : comparison) : comparison :=
  match c with Eq => d | _ => c end.

(** Modelled from the spec: the order of the fused list. Descending
    accumulated score; ties broken by presence in more lists, then by the
    semantic rank, then by chunk id. *)
Definition fused_compare (sem lex : list ScoredResult) (a b : string * Q)
    : comparison :=
  then_by (Qcompare b.2 a.2)
    (then_by (Nat.compare (listed b.1 sem + listed b.1 lex)
                          (listed a.1 sem + listed a.1 lex))
       (then_by (compare_rank (rank_of a.1 sem) (rank_of b.1 sem))
          (String.compare a.1 b.1))).

Definition fused_before (sem lex : list ScoredResult) (a b : string * Q) : Prop :=
  fused_compare sem lex a b ≠ Gt.

#[global] Instance fused_before_dec sem lex a b : Decision (fused_before sem lex a b).
Proof. unfold fused_before. solve_decision. Defined.

Definition valid_weights (w_s w_l : Q) : bool :=
  Qle_bool 0 w_s && Qle_bool 0 w_l && negb (Qeq_bool (w_s + w_l) 0).

(** Modelled from the spec: RankFusion, weighted reciprocal rank fusion
    of the semantic and the lexical list. The weights are normalized; a
    negative weight or two zero weights is a ConfigurationError. *)
Definition rank_fusion (w_s w_l : Q) (sem lex : list ScoredResult)
    : PyResult (list ScoredResult) :=
  if valid_weights w_s w_l then
    let total := (w_s + w_l)%Q in
    let acc :=
      accumulate (w_l / total) 0 lex (accumulate (w_s / total) 0 sem ∅) in
    Ok (imap (λ i c, mkScoredResult c.1 c.2 i)
          (merge_sort (fused_before sem lex) (map_to_list acc)))
  else Raise ConfigurationError.

(** ** Sample data *)

Definition doc_of (text : string) : Document := mkDocument None ∅ text.

(** A scorer that rates a passage by its length. *)
Definition length_score (query text : string) : Z :=
  Z.of_nat (String.length text).

(** A scorer call that returns on every batch. *)
Definition scorer_returns (pairs : list (string * string)) : option string :=
  None.

(** A scorer call that raises IndexError on the empty batch. *)
Definition raises_on_empty (pairs : list (string * string)) : option string :=
  match pairs with
  | [] => Some "IndexError"
  | _ => None
  end.

Definition sample_docs : list Document := [doc_of "a"; doc_of "bb"].

(** Two different passages of the same length: equal scores. *)
Definition tied_docs : list Document := [doc_of "a"; doc_of "b"].

Definition sample_stream : Response :=
  mkResponse [mkChunk false "Scrum "; mkChunk false "uses sprints.";
              mkChunk true "ignored"; mkChunk false "late"] None.

Definition sample_env : Collaborators :=
  mkCollaborators Z Z.eqb Z.ltb length_score scorer_returns
    (λ _ _, Ok sample_docs) (λ _ _, sample_stream) "system".

(** The retriever returns two passages that the scorer cannot tell apart. *)
Definition tied_env : Collaborators :=
  mkCollaborators Z Z.eqb Z.ltb length_score scorer_returns
    (λ _ _, Ok tied_docs) (λ _ _, sample_stream) "system".

(** The backend breaks after its first unit. *)
Definition broken_env : Collaborators :=
  mkCollaborators Z Z.eqb Z.ltb length_score scorer_returns
    (λ _ _, Ok sample_docs)
    (λ _ _, mkResponse [mkChunk false "Scrum "] (Some (ExternalError "ResponseError")))
    "system".

(** The scorer ties on the two passages retrieved for the query [tie]. *)
Definition mixed_env : Collaborators :=
  mkCollaborators Z Z.eqb Z.ltb length_score scorer_returns
    (λ q _, if String.eqb q "tie" then Ok tied_docs else Ok sample_docs)
    (λ _ _, sample_stream) "system".

(** The retriever cannot be reached. *)
Definition offline_env : Collaborators :=
  mkCollaborators Z Z.eqb Z.ltb length_score scorer_returns
    (λ _ _, Raise (ExternalError "ConnectionError"))
    (λ _ _, sample_stream) "system".

(** The retriever finds nothing, and the scorer raises on an empty batch. *)
Definition empty_env : Collaborators :=
  mkCollaborators Z Z.eqb Z.ltb length_score raises_on_empty
    (λ _ _, Ok []) (λ _ _, sample_stream) "system".

Definition result_of (id : string) : ScoredResult := mkScoredResult id 0 0.

Definition sample_semantic : list ScoredResult :=
  result_of <$> ["c1"; "c2"; "c3"; "c4"; "c5"].

Definition sample_lexical : list ScoredResult :=
  result_of <$> ["c4"; "c6"; "c5"; "c7"; "c8"].

(** ** Notions for the properties of the ranking and of the session *)

(** The score the cross encoder gives a document for a query. *)
Definition score_of {Score : Type} (predict : string → string → Score)
    (query : string) (d : Document) : Score :=
  predict query (page_content d).

(** Documents in descending order of their score for a query. *)
Definition ranked {Score : Type} (score_ltb : Score → Score → bool)
    (predict : string → string → Score) (query : string)
    (l : list Document) : Prop :=
  StronglySorted
    (λ d1 d2, score_ltb (score_of predict query d1) (score_of predict query d2)
              = false) l.

(** A line that is a query and whose turn ends without an exception. *)
Definition completes (env : Collaborators) (line : string) : Prop :=
  is_terminator line = false ∧ (answer_query env line).2 = None.

(** * Proofs *)

Lemma bind_Ok_inv {A B} (r : PyResult A) (k : A → PyResult B) b :
  r ≫= k = Ok b → ∃ a, r = Ok a ∧ k a = Ok b.
Proof. destruct r as [a|e]; simpl; [eauto | discriminate]. Qed.

Lemma bind_Raise_inv {A B} (r : PyResult A) (k : A → PyResult B) e :
  r ≫= k = Raise e → r = Raise e ∨ ∃ a, r = Ok a ∧ k a = Raise e.
Proof. destruct r as [a|e']; simpl; [eauto | intros [= ->]; auto]. Qed.

(** Inverts a successful bind found among the hypotheses. *)
Ltac py_inv :=
  repeat match goal with
  | H : _ ≫= _ = Ok _ |- _ =>
      let a := fresh "a" in
      let Ha := fresh "Ha" in
      apply bind_Ok_inv in H as (a & Ha & H)
  | H : Ok _ = Ok _ |- _ => injection H as H; try subst
  | H : Raise _ = Ok _ |- _ => discriminate H
  | H : Ok _ = Raise _ |- _ => discriminate H
  end.

(** ** Slices *)

Lemma py_slice_to_length_nonneg {A} (l : list A) k :
  0 ≤ k → Z.of_nat (length (py_slice_to l k)) = Z.min k (Z.of_nat (length l)).
Proof.
  intros Hk. unfold py_slice_to.
  destruct (Z.ltb_spec k 0); [lia|]. rewrite length_take. lia.
Qed.

Lemma py_slice_to_length_neg {A} (l : list A) k :
  k < 0 → Z.of_nat (length (py_slice_to l k)) = Z.max 0 (Z.of_nat (length l) + k).
Proof.
  intros Hk. unfold py_slice_to.
  destruct (Z.ltb_spec k 0); [|lia]. rewrite length_take. lia.
Qed.

Lemma py_slice_to_all {A} (l : list A) k :
  Z.of_nat (length l) ≤ k → py_slice_to l k = l.
Proof.
  intros Hk. unfold py_slice_to.
  destruct (Z.ltb_spec k 0); [lia|]. apply take_ge. lia.
Qed.

(** ** The reranker *)

Section RerankerFacts.
Context {Score : Type}.
Variable score_eqb : Score → Score → bool.
Variable score_ltb : Score → Score → bool.
Variable predict : string → string → Score.
Variable predict_error : list (string * string) → option string.

Local Abbreviation tuple_lt := (tuple_lt score_eqb score_ltb).
Local Abbreviation insert_sorted := (insert_sorted score_eqb score_ltb).
Local Abbreviation sort_into := (sort_into score_eqb score_ltb).
Local Abbreviation list_sort := (list_sort score_eqb score_ltb).
Local Abbreviation sorted_reverse := (sorted_reverse score_eqb score_ltb).
Local Abbreviation scored := (scored predict).
Local Abbreviation cross_encoder_predict :=
  (cross_encoder_predict predict predict_error).
Local Abbreviation sorted_docs :=
  (sorted_docs score_eqb score_ltb predict predict_error).
Local Abbreviation query_doc :=
  (query_doc score_eqb score_ltb predict predict_error).
Local Abbreviation clash := (clash score_eqb).
Local Abbreviation ties_agree := (ties_agree score_eqb).
Local Abbreviation asc := (asc score_ltb).
Local Abbreviation desc := (desc score_ltb).

(** *** What the sort preserves *)

Lemma insert_sorted_perm x l r : insert_sorted x l = Ok r → r ≡ₚ x :: l.
Proof.
  revert r. induction l as [|y ys IH]; intros r H; simpl in H.
  - by py_inv.
  - py_inv. destruct a; py_inv; [done|].
    rewrite (IH _ Ha0). apply Permutation_swap.
Qed.

Lemma sort_into_perm acc l r : sort_into acc l = Ok r → r ≡ₚ acc ++ l.
Proof.
  revert acc r. induction l as [|x xs IH]; intros acc r H; simpl in H.
  - py_inv. by rewrite app_nil_r.
  - py_inv. rewrite (IH _ _ H), (insert_sorted_perm _ _ _ Ha).
    simpl. apply Permutation_middle.
Qed.

Lemma sorted_reverse_perm l r : sorted_reverse l = Ok r → r ≡ₚ l.
Proof.
  unfold sorted_reverse, list_sort. intros H. py_inv.
  apply sort_into_perm in Ha. simpl in Ha.
  by rewrite reverse_Permutation, Ha, reverse_Permutation.
Qed.

(** *** When the sort succeeds *)

Lemma ties_agree_spec l :
  ties_agree l = true ↔ ∀ x y, x ∈ l → y ∈ l → clash x y = false.
Proof.
  unfold ties_agree. rewrite forallb_forall. split.
  - intros H x y Hx Hy. apply list_elem_of_In in Hx, Hy.
    specialize (H x Hx). rewrite forallb_forall in H.
    specialize (H y Hy). by destruct (clash x y).
  - intros H x Hx. apply forallb_forall. intros y Hy.
    rewrite (H x y); [done | by apply list_elem_of_In ..].
Qed.

Lemma tuple_lt_clash x y : clash x y = true → tuple_lt x y = Raise TypeError.
Proof.
  unfold clash, tuple_lt. intros [-> ->]%andb_true_iff. done.
Qed.

Lemma tuple_lt_no_clash x y :
  clash x y = false →
  tuple_lt x y = Ok (negb (score_eqb x.1 y.1) && score_ltb x.1 y.1).
Proof.
  unfold clash, tuple_lt.
  destruct (score_eqb x.1 y.1), (doc_eqb x.2 y.2); simpl; done.
Qed.

Lemma insert_sorted_ok x l :
  (∀ y, y ∈ l → clash x y = false) → ∃ r, insert_sorted x l = Ok r.
Proof.
  induction l as [|y ys IH]; intros H; simpl; [eauto|].
  rewrite tuple_lt_no_clash by (apply H; left). simpl.
  destruct (negb _ && _); [eauto|].
  destruct IH as [r ->]; [intros; apply H; by right | simpl; eauto].
Qed.

Lemma sort_into_ok acc l :
  (∀ x y, x ∈ acc ++ l → y ∈ acc ++ l → clash x y = false) →
  ∃ r, sort_into acc l = Ok r.
Proof.
  revert acc. induction l as [|x xs IH]; intros acc H; simpl; [eauto|].
  destruct (insert_sorted_ok x acc) as [r Hr].
  { intros y Hy. apply H; set_solver. }
  rewrite Hr. simpl. apply IH. intros u v Hu Hv.
  apply insert_sorted_perm in Hr. rewrite Hr in Hu, Hv. simpl in Hu, Hv.
  apply H; by rewrite <- Permutation_middle.
Qed.

Lemma sorted_reverse_ok l :
  ties_agree l = true → ∃ r, sorted_reverse l = Ok r.
Proof.
  rewrite ties_agree_spec. intros H. unfold sorted_reverse, list_sort.
  destruct (sort_into_ok [] (reverse l)) as [r ->]; [|simpl; eauto].
  simpl. intros x y Hx Hy. apply H; by apply elem_of_reverse.
Qed.

(** *** When the sort raises *)

Section Ordered.
Hypothesis score_order : ScoreOrder score_eqb score_ltb.

Lemma clash_sym x y : clash x y = clash y x.
Proof.
  unfold clash, doc_eqb. f_equal.
  - destruct (score_eqb x.1 y.1) eqn:E1, (score_eqb y.1 x.1) eqn:E2; try done.
    + apply score_order in E1. symmetry in E1. apply score_order in E1. congruence.
    + apply score_order in E2. symmetry in E2. apply score_order in E2. congruence.
  - f_equal. apply bool_decide_ext. naive_solver.
Qed.

Lemma clash_refl x : clash x x = false.
Proof.
  unfold clash, doc_eqb. rewrite bool_decide_eq_true_2 by done.
  apply andb_false_r.
Qed.

Lemma insert_sorted_clash x y l :
  asc l → y ∈ l → clash x y = true → insert_sorted x l = Raise TypeError.
Proof.
  induction l as [|z zs IH]; intros Hs Hy Hc; [by apply elem_of_nil in Hy|].
  apply StronglySorted_inv in Hs as [Hs Hz]. simpl.
  destruct (clash x z) eqn:Hxz; [by rewrite tuple_lt_clash|].
  rewrite tuple_lt_no_clash by done. simpl.
  apply elem_of_cons in Hy as [->|Hy]; [congruence|].
  destruct (negb _ && _) eqn:Hb.
  - apply andb_true_iff in Hb as [_ Hlt].
    rewrite Forall_forall in Hz. specialize (Hz y Hy). simpl in Hz.
    apply andb_true_iff in Hc as [He _]. apply score_order in He.
    congruence.
  - by rewrite IH.
Qed.

Lemma insert_sorted_asc x l r : asc l → insert_sorted x l = Ok r → asc r.
Proof.
  revert r. induction l as [|z zs IH]; intros r Hs H; simpl in H.
  - py_inv. repeat constructor.
  - pose proof Hs as [Hs' Hz]%StronglySorted_inv.
    py_inv. unfold tuple_lt in Ha.
    destruct a; py_inv.
    + destruct (score_eqb x.1 z.1); simpl in Ha;
        [destruct (doc_eqb x.2 z.2); simpl in Ha; discriminate|].
      py_inv. constructor; [done|]. constructor.
      * destruct (score_ltb z.1 x.1) eqn:E; [|done].
        rewrite <- (score_ltb_irrefl _ _ score_order x.1).
        symmetry. eapply score_ltb_trans; eauto.
      * rewrite Forall_forall in Hz |- *. intros b Hb. specialize (Hz b Hb).
        simpl in Hz. destruct (score_ltb b.1 x.1) eqn:E; [|done].
        rewrite <- Hz. symmetry. eapply score_ltb_trans; eauto.
    + constructor; [by eapply IH|].
      apply insert_sorted_perm in Ha0. rewrite Ha0. constructor; [|done].
      destruct (score_eqb x.1 z.1) eqn:E; simpl in Ha.
      * apply score_order in E. rewrite E. apply score_order.
      * by py_inv.
Qed.

Lemma sort_into_clash acc l x y :
  asc acc → (∀ u v, u ∈ acc → v ∈ acc → clash u v = false) →
  x ∈ acc ++ l → y ∈ acc ++ l → clash x y = true →
  sort_into acc l = Raise TypeError.
Proof.
  revert acc. induction l as [|z zs IH]; intros acc Hs Hacc Hx Hy Hc.
  - rewrite app_nil_r in Hx, Hy. rewrite Hacc in Hc; done.
  - simpl. destruct (existsb (clash z) acc) eqn:Hex.
    + apply existsb_exists in Hex as (w & Hw%list_elem_of_In & Hzw).
      by rewrite (insert_sorted_clash z w).
    + assert (∀ w, w ∈ acc → clash z w = false) as Hz.
      { intros w Hw%list_elem_of_In. destruct (clash z w) eqn:E; [|done].
        rewrite <- Hex. symmetry. apply existsb_exists. eauto. }
      destruct (insert_sorted_ok z acc Hz) as [r Hr]. rewrite Hr. simpl.
      pose proof (insert_sorted_perm _ _ _ Hr) as Hp.
      apply IH.
      * by eapply insert_sorted_asc.
      * intros u v. rewrite Hp, !elem_of_cons.
        intros [->|Hu] [->|Hv]; auto using clash_refl.
        rewrite clash_sym. auto.
      * rewrite Hp. simpl. by rewrite Permutation_middle.
      * rewrite Hp. simpl. by rewrite Permutation_middle.
      * done.
Qed.

Lemma sorted_reverse_clash l x y :
  x ∈ l → y ∈ l → clash x y = true → sorted_reverse l = Raise TypeError.
Proof.
  intros Hx Hy Hc. unfold sorted_reverse, list_sort.
  rewrite (sort_into_clash [] (reverse l) x y); try done.
  - constructor.
  - intros u v Hu. by apply elem_of_nil in Hu.
  - by apply elem_of_reverse.
  - by apply elem_of_reverse.
Qed.

Lemma sort_into_asc acc l r : asc acc → sort_into acc l = Ok r → asc r.
Proof.
  revert acc. induction l as [|x xs IH]; intros acc Hs H; simpl in H.
  - by py_inv.
  - py_inv. eauto using insert_sorted_asc.
Qed.

Lemma asc_reverse l : asc l → desc (reverse l).
Proof.
  induction 1 as [|x l _ IH Hx]; [constructor|].
  rewrite reverse_cons. apply StronglySorted_app_2; [|done|repeat constructor].
  intros a b Ha ->%list_elem_of_singleton.
  apply (proj1 (elem_of_reverse _ _)) in Ha.
  rewrite Forall_forall in Hx. by apply Hx.
Qed.

(** When [sorted] returns, its result is a rearrangement of the input in
    descending order of score. *)
Lemma sorted_reverse_desc l r : sorted_reverse l = Ok r → r ≡ₚ l ∧ desc r.
Proof.
  intros H. split; [by eapply sorted_reverse_perm|].
  unfold sorted_reverse, list_sort in H. py_inv.
  apply asc_reverse. eapply sort_into_asc; [|done]. constructor.
Qed.
End Ordered.

(** *** [query_doc] *)

Lemma snd_scored query docs : map snd (scored query docs) = docs.
Proof. unfold scored. rewrite map_map. simpl. apply map_id. Qed.

Lemma zip_scored query docs :
  zip (map (λ p, predict p.1 p.2) (query_doc_pair query docs)) docs
  = scored query docs.
Proof.
  unfold query_doc_pair, scored.
  induction docs as [|d docs IH]; simpl; [done | by rewrite IH].
Qed.

Lemma sorted_docs_returned query docs :
  predict_error (query_doc_pair query docs) = None →
  sorted_docs query docs
  = (r ← sorted_reverse (scored query docs); Ok (map snd r)).
Proof.
  intros H. unfold sorted_docs, cross_encoder_predict. rewrite H. simpl.
  by rewrite zip_scored.
Qed.

Lemma sorted_docs_scorer_raises query docs name :
  predict_error (query_doc_pair query docs) = Some name →
  sorted_docs query docs = Raise (ScorerError name).
Proof. intros H. unfold sorted_docs, cross_encoder_predict. by rewrite H. Qed.

Lemma sorted_docs_Ok_inv query docs r :
  sorted_docs query docs = Ok r →
  predict_error (query_doc_pair query docs) = None
  ∧ ∃ r', sorted_reverse (scored query docs) = Ok r' ∧ r = map snd r'.
Proof.
  destruct (predict_error (query_doc_pair query docs)) as [name|] eqn:E.
  - by rewrite (sorted_docs_scorer_raises _ _ _ E).
  - rewrite sorted_docs_returned by done. intros H. py_inv. eauto.
Qed.

Lemma sorted_docs_perm query docs r :
  sorted_docs query docs = Ok r → r ≡ₚ docs.
Proof.
  intros (_ & r' & Hr & ->)%sorted_docs_Ok_inv.
  apply sorted_reverse_perm in Hr.
  rewrite <- (snd_scored query docs). by apply Permutation_map.
Qed.

Lemma sorted_docs_ok query docs :
  predict_error (query_doc_pair query docs) = None →
  ties_agree (scored query docs) = true → ∃ r, sorted_docs query docs = Ok r.
Proof.
  intros He [r Hr]%sorted_reverse_ok.
  rewrite sorted_docs_returned by done. rewrite Hr. simpl. eauto.
Qed.

Lemma query_doc_ok query docs top_k :
  predict_error (query_doc_pair query docs) = None →
  ties_agree (scored query docs) = true →
  ∃ out, query_doc query docs top_k = Ok out.
Proof.
  intros He [r Hr]%sorted_docs_ok; [|done]. unfold query_doc.
  rewrite Hr. simpl. eauto.
Qed.

Lemma insert_sorted_raises x l e : insert_sorted x l = Raise e → e = TypeError.
Proof.
  induction l as [|y ys IH]; simpl; [discriminate|].
  unfold tuple_lt.
  destruct (score_eqb x.1 y.1); simpl.
  - destruct (doc_eqb x.2 y.2); simpl; [|congruence].
    destruct (insert_sorted x ys); simpl; [discriminate|]. intros [= <-]. auto.
  - destruct (score_ltb x.1 y.1); [discriminate|].
    destruct (insert_sorted x ys); simpl; [discriminate|]. intros [= <-]. auto.
Qed.

Lemma sort_into_raises acc l e : sort_into acc l = Raise e → e = TypeError.
Proof.
  revert acc. induction l as [|x xs IH]; intros acc; simpl; [discriminate|].
  intros [H|(r & _ & H)]%bind_Raise_inv; eauto using insert_sorted_raises.
Qed.

(** The two ways in which [query_doc] raises: inside [predict], or in
    [sorted]. *)
Lemma query_doc_raises query docs top_k e :
  query_doc query docs top_k = Raise e →
  (∃ name, predict_error (query_doc_pair query docs) = Some name
           ∧ e = ScorerError name)
  ∨ (predict_error (query_doc_pair query docs) = None
     ∧ e = TypeError
     ∧ sorted_docs query docs = Raise TypeError).
Proof.
  unfold query_doc.
  destruct (predict_error (query_doc_pair query docs)) as [name|] eqn:E.
  - rewrite (sorted_docs_scorer_raises _ _ _ E). simpl. intros [= <-]. eauto.
  - rewrite sorted_docs_returned by done.
    unfold sorted_reverse, list_sort.
    destruct (sort_into [] _) as [r|e'] eqn:Hs; simpl; [discriminate|].
    intros [= <-]. apply sort_into_raises in Hs as ->. by right.
Qed.

Lemma query_doc_inv query docs top_k out :
  query_doc query docs top_k = Ok out →
  ∃ r, sorted_docs query docs = Ok r ∧ r ≡ₚ docs ∧ out = py_slice_to r top_k.
Proof.
  unfold query_doc. intros H. py_inv.
  eauto using sorted_docs_perm.
Qed.

End RerankerFacts.

Lemma Z_score_order : ScoreOrder Z.eqb Z.ltb.
Proof.
  split.
  - apply Z.eqb_eq.
  - apply Z.ltb_irrefl.
  - intros a b c. rewrite !Z.ltb_lt. lia.
Qed.

(** C2. For a call of [query_doc] with a count [top_k >= 0]: whenever the
    call returns, its output has exactly [min(top_k, len(docs))]
    elements. *)
Theorem query_doc_length {Score : Type} (score_eqb score_ltb : Score → Score → bool)
    (predict : string → string → Score)
    (predict_error : list (string * string) → option string) (query : string)
    (docs : list Document) (top_k : Z) (out : list Document) :
  0 ≤ top_k →
  query_doc score_eqb score_ltb predict predict_error query docs top_k = Ok out →
  Z.of_nat (length out) = Z.min top_k (Z.of_nat (length docs)).
Proof.
  intros Hk (r & _ & Hp & ->)%query_doc_inv.
  rewrite py_slice_to_length_nonneg by done. by rewrite Hp.
Qed.

Lemma query_doc_length_witness :
  0 ≤ 1
  ∧ query_doc Z.eqb Z.ltb length_score scorer_returns "q" sample_docs 1
    = Ok [doc_of "bb"]
  ∧ Z.of_nat (length [doc_of "bb"]) = Z.min 1 (Z.of_nat (length sample_docs)).
Proof.
  split_and!; [lia | reflexivity |].
  apply (query_doc_length Z.eqb Z.ltb length_score scorer_returns "q"
           sample_docs 1); [lia | reflexivity].
Defined.

(** C3, as amended. When [top_k] exceeds the number of candidates the call
    is the untruncated sort: it raises no ConfigurationError, and whenever
    it returns the output holds every candidate, so its length is clamped
    to the candidate count; it returns when [predict] returns and no two
    different documents get the same score. *)
Theorem query_doc_top_k_clamped {Score : Type}
    (score_eqb score_ltb : Score → Score → bool)
    (predict : string → string → Score)
    (predict_error : list (string * string) → option string) (query : string)
    (docs : list Document) (top_k : Z) :
  Z.of_nat (length docs) < top_k →
  query_doc score_eqb score_ltb predict predict_error query docs top_k
    = sorted_docs score_eqb score_ltb predict predict_error query docs
  ∧ query_doc score_eqb score_ltb predict predict_error query docs top_k
    ≠ Raise ConfigurationError
  ∧ (∀ out,
       query_doc score_eqb score_ltb predict predict_error query docs top_k
       = Ok out →
       out ≡ₚ docs ∧ length out = length docs)
  ∧ (predict_error (query_doc_pair query docs) = None →
     ties_agree score_eqb (scored predict query docs) = true →
     ∃ out,
       query_doc score_eqb score_ltb predict predict_error query docs top_k
       = Ok out).
Proof.
  intros Hk. split_and!.
  - unfold query_doc.
    destruct (sorted_docs _ _ _ _ _ _) as [r|e] eqn:E; simpl; [|done].
    apply sorted_docs_perm in E. rewrite py_slice_to_all; [done|].
    rewrite E. lia.
  - intros [(name & _ & H)|(_ & H & _)]%query_doc_raises; discriminate H.
  - intros out (r & _ & Hp & ->)%query_doc_inv.
    rewrite py_slice_to_all by (rewrite Hp; lia). by rewrite Hp.
  - apply query_doc_ok.
Qed.

Lemma query_doc_top_k_clamped_witness :
  Z.of_nat (length sample_docs) < 10
  ∧ query_doc Z.eqb Z.ltb length_score scorer_returns "q" sample_docs 10
    = sorted_docs Z.eqb Z.ltb length_score scorer_returns "q" sample_docs
  ∧ query_doc Z.eqb Z.ltb length_score scorer_returns "q" sample_docs 10
    ≠ Raise ConfigurationError
  ∧ (∀ out,
       query_doc Z.eqb Z.ltb length_score scorer_returns "q" sample_docs 10
       = Ok out →
       out ≡ₚ sample_docs ∧ length out = length sample_docs)
  ∧ (scorer_returns (query_doc_pair "q" sample_docs) = None →
     ties_agree Z.eqb (scored length_score "q" sample_docs) = true →
     ∃ out,
       query_doc Z.eqb Z.ltb length_score scorer_returns "q" sample_docs 10
       = Ok out).
Proof.
  split; [simpl; lia|].
  apply (query_doc_top_k_clamped Z.eqb Z.ltb length_score scorer_returns "q"
           sample_docs 10).
  simpl; lia.
Defined.

(** C3 as stated fails: with two candidates and [top_k = 10] the call
    returns both candidates instead of raising. *)
Lemma query_doc_top_k_above_returns :
  Z.of_nat (length sample_docs) < 10
  ∧ query_doc Z.eqb Z.ltb length_score scorer_returns "q" sample_docs 10
    = Ok [doc_of "bb"; doc_of "a"]
  ∧ ¬ ∃ e,
        query_doc Z.eqb Z.ltb length_score scorer_returns "q" sample_docs 10
        = Raise e.
Proof.
  split_and!; [simpl; lia | reflexivity |].
  intros [e H]. vm_compute in H. discriminate H.
Qed.

(** C4: the code at a tie. When [predict] has returned and two different
    documents of the candidate list got equal scores, [sorted] has to
    compare the documents and the call raises TypeError; no reranked list
    is returned. *)
Theorem query_doc_tie_raises {Score : Type}
    (score_eqb score_ltb : Score → Score → bool)
    (predict : string → string → Score)
    (predict_error : list (string * string) → option string) (query : string)
    (docs : list Document) (top_k : Z) (d1 d2 : Document) :
  ScoreOrder score_eqb score_ltb →
  predict_error (query_doc_pair query docs) = None →
  d1 ∈ docs → d2 ∈ docs → d1 ≠ d2 →
  score_eqb (predict query (page_content d1))
            (predict query (page_content d2)) = true →
  query_doc score_eqb score_ltb predict predict_error query docs top_k
  = Raise TypeError.
Proof.
  intros Ho Hp H1 H2 Hne He. unfold query_doc.
  rewrite sorted_docs_returned by done.
  rewrite (sorted_reverse_clash score_eqb score_ltb Ho _
             (predict query (page_content d1), d1)
             (predict query (page_content d2), d2)); [done|..].
  - unfold scored. apply list_elem_of_fmap. by exists d1.
  - unfold scored. apply list_elem_of_fmap. by exists d2.
  - unfold clash, doc_eqb. simpl. rewrite He.
    by rewrite bool_decide_eq_false_2.
Qed.

Lemma query_doc_tie_raises_witness :
  ScoreOrder Z.eqb Z.ltb
  ∧ scorer_returns (query_doc_pair "q" tied_docs) = None
  ∧ doc_of "a" ∈ tied_docs ∧ doc_of "b" ∈ tied_docs ∧ doc_of "a" ≠ doc_of "b"
  ∧ Z.eqb (length_score "q" (page_content (doc_of "a")))
          (length_score "q" (page_content (doc_of "b"))) = true
  ∧ query_doc Z.eqb Z.ltb length_score scorer_returns "q" tied_docs 10
    = Raise TypeError.
Proof.
  assert (doc_of "a" ∈ tied_docs) as H1 by constructor.
  assert (doc_of "b" ∈ tied_docs) as H2 by do 2 constructor.
  assert (doc_of "a" ≠ doc_of "b") as H3 by discriminate.
  split_and!;
    [apply Z_score_order | reflexivity | done | done | done | reflexivity |].
  apply (query_doc_tie_raises Z.eqb Z.ltb length_score scorer_returns "q"
           tied_docs 10 (doc_of "a") (doc_of "b") Z_score_order eq_refl
           H1 H2 H3).
  reflexivity.
Defined.

(** ** The context *)

Lemma string_length_app (s t : string) :
  String.length (s +:+ t) = (String.length s + String.length t)%nat.
Proof. induction s as [|c s IH]; [done | exact (f_equal S IH)]. Qed.

Lemma string_app_assoc (s t u : string) : (s +:+ t) +:+ u = s +:+ t +:+ u.
Proof. induction s as [|c s IH]; [done | exact (f_equal (String c) IH)]. Qed.

Lemma string_app_empty_r (s : string) : s +:+ "" = s.
Proof. induction s as [|c s IH]; [done | exact (f_equal (String c) IH)]. Qed.

Lemma concat_cons sep (x : string) (xs : list string) :
  xs ≠ [] → String.concat sep (x :: xs) = x +:+ sep +:+ String.concat sep xs.
Proof. by destruct xs. Qed.

Lemma concat_length sep (l : list string) :
  String.length (String.concat sep l)
  = (sum_list (String.length <$> l) + String.length sep * (length l - 1))%nat.
Proof.
  induction l as [|x xs IH]; [simpl; lia|].
  destruct xs as [|y ys]; [simpl; lia|].
  rewrite concat_cons by done. rewrite !string_length_app, IH.
  rewrite !fmap_cons. simpl. lia.
Qed.

Lemma concat_contains sep (l : list string) (x : string) :
  x ∈ l → ∃ pre post, String.concat sep l = pre +:+ x +:+ post.
Proof.
  induction l as [|y ys IH]; [by intros ?%elem_of_nil|].
  intros [->|Hx]%elem_of_cons.
  - destruct ys as [|z zs]; [by exists "", ""; simpl; rewrite string_app_empty_r|].
    exists "". eexists. by rewrite concat_cons.
  - destruct (IH Hx) as (pre & post & Hc).
    destruct ys as [|z zs]; [by apply elem_of_nil in Hx|].
    rewrite concat_cons by done. rewrite Hc.
    exists (y +:+ sep +:+ pre), post. by rewrite !string_app_assoc.
Qed.

Lemma concat_app sep (l1 l2 : list string) :
  l1 ≠ [] → l2 ≠ [] →
  String.concat sep (l1 ++ l2)
  = String.concat sep l1 +:+ sep +:+ String.concat sep l2.
Proof.
  intros H1 H2. induction l1 as [|x l1 IH]; [done|]. clear H1.
  destruct l1 as [|y l1].
  - simpl app. rewrite concat_cons; done.
  - change ((x :: y :: l1) ++ l2) with (x :: ((y :: l1) ++ l2)).
    rewrite concat_cons by discriminate.
    rewrite IH by discriminate.
    rewrite (concat_cons _ x (y :: l1)) by discriminate.
    by rewrite !string_app_assoc.
Qed.

(** C1, as amended. The context is assembled without a budget: it is the
    whole text of every top document, in ranked order, joined by a
    newline. Its length is the sum of the text lengths plus one per
    separator; and at every position of the list, the context is the
    context of the documents before it, a newline, the document's whole
    text, a newline and the context of the documents after it (without
    the newline where no document comes before or after). No document is
    cut or left out, whatever the lengths are. *)
Theorem build_context_whole (top_docs : list Document) :
  String.length (build_context top_docs)
  = (sum_list ((λ d, String.length (page_content d)) <$> top_docs)
     + (length top_docs - 1))%nat
  ∧ ∀ before d after, top_docs = before ++ d :: after →
      build_context top_docs
      = match before with
        | [] => ""
        | _ => build_context before +:+ newline
        end
        +:+ page_content d
        +:+ match after with
            | [] => ""
            | _ => newline +:+ build_context after
            end.
Proof.
  unfold build_context. split.
  - change (map page_content top_docs) with (page_content <$> top_docs).
    rewrite concat_length, length_fmap, <- list_fmap_compose.
    change (String.length newline) with 1%nat. unfold compose. lia.
  - intros before d after ->. rewrite map_app, map_cons.
    assert (String.concat newline (page_content d :: map page_content after)
            = page_content d
              +:+ match after with
                  | [] => ""
                  | _ => newline +:+ String.concat newline (map page_content after)
                  end) as Hd.
    { destruct after as [|d' after]; [by rewrite string_app_empty_r|].
      by rewrite concat_cons. }
    destruct before as [|b before]; [exact Hd|].
    rewrite concat_app by discriminate. rewrite Hd.
    by rewrite !string_app_assoc.
Qed.

(** C1 as stated fails: no budget bounds the context. One document of
    three characters already exceeds a budget of two. *)
Lemma build_context_exceeds_budget :
  ¬ (∀ (top_docs : list Document) (maxChars : nat),
       (String.length (build_context top_docs) ≤ maxChars)%nat).
Proof. intros H. specialize (H [doc_of "abc"] 2%nat). simpl in H. lia. Qed.

(** ** The generator *)

Lemma callModel_loop_done pre d post fail :
  Forall pending pre → chunk_done d = true →
  callModel_loop (pre ++ d :: post) fail
  = mkGenerated (message_content <$> pre) post None.
Proof.
  intros Hpre Hd. induction Hpre as [|c pre Hc _ IH]; simpl.
  - by rewrite Hd.
  - rewrite Hc, IH. done.
Qed.

Lemma callModel_loop_pending us fail :
  Forall pending us →
  callModel_loop us fail = mkGenerated (message_content <$> us) [] fail.
Proof.
  intros Hus. induction Hus as [|c us Hc _ IH]; simpl; [done|].
  rewrite Hc, IH. done.
Qed.


(** Every stream either never says done, or splits at its first done unit. *)
Lemma first_done_split (us : list Chunk) :
  Forall pending us
  ∨ ∃ pre d post, us = pre ++ d :: post ∧ Forall pending pre ∧ chunk_done d = true.
Proof.
  induction us as [|c us [IH|(pre & d & post & -> & Hpre & Hd)]].
  - left. constructor.
  - destruct (chunk_done c) eqn:Hc.
    + right. exists [], c, us. by repeat split.
    + left. by constructor.
  - destruct (chunk_done c) eqn:Hc.
    + right. exists [], c, (pre ++ d :: post). by repeat split.
    + right. exists (c :: pre), d, post. repeat split; [|done]. by constructor.
Qed.

Lemma before_first_done_split pre d post :
  Forall pending pre → chunk_done d = true →
  before_first_done (pre ++ d :: post) = pre.
Proof.
  intros Hpre Hd. induction Hpre as [|c pre Hc _ IH]; simpl.
  - by rewrite Hd.
  - by rewrite Hc, IH.
Qed.

Lemma callModel_loop_yielded us fail :
  yielded (callModel_loop us fail) = message_content <$> before_first_done us.
Proof.
  induction us as [|c us IH]; simpl; [done|].
  destruct (chunk_done c); simpl; [done|]. f_equal. exact IH.
Qed.


(** C9. The text that [callModel] produces is the concatenation of the
    message contents of exactly the units strictly before the first unit
    tagged done. It does not depend on that unit's own content nor on any
    unit after it. *)
Theorem callModel_text (env : Collaborators) (context prompt : string) :
  yielded (callModel env context prompt)
  = message_content <$> before_first_done (units (chat_response env context prompt))
  ∧ answer_text (callModel env context prompt)
    = String.concat ""
        (message_content
           <$> before_first_done (units (chat_response env context prompt)))
  ∧ ∀ pre d post,
      units (chat_response env context prompt) = pre ++ d :: post →
      Forall pending pre → chunk_done d = true →
      before_first_done (units (chat_response env context prompt)) = pre
      ∧ answer_text (callModel env context prompt)
        = String.concat "" (message_content <$> pre).
Proof.
  unfold answer_text, callModel. rewrite callModel_loop_yielded.
  split_and!; [done..|].
  intros pre d post -> Hpre Hd. by rewrite before_first_done_split.
Qed.

(** ** The terminator check *)

Lemma lower_eqb_caseless (s t : string) :
  Forall (λ b, ∀ a, Ascii.eqb (ascii_lower a) b = same_letter a b)
         (list_ascii_of_string t) →
  String.eqb (lower s) t = caseless_eqb s t.
Proof.
  revert s. induction t as [|b t IH]; intros s Ht; destruct s as [|a s]; try done.
  simpl in Ht. apply Forall_cons in Ht as [Hb Ht].
  simpl. rewrite Hb, (IH _ Ht). by destruct (same_letter a b).
Qed.

(** Decides a statement about all 256 characters by running through them. *)
Ltac each_ascii a :=
  destruct a as [[] [] [] [] [] [] [] []]; vm_compute; reflexivity.

Lemma lower_is_q a : Ascii.eqb (ascii_lower a) "q" = same_letter a "q".
Proof. each_ascii a. Qed.
Lemma lower_is_u a : Ascii.eqb (ascii_lower a) "u" = same_letter a "u".
Proof. each_ascii a. Qed.
Lemma lower_is_i a : Ascii.eqb (ascii_lower a) "i" = same_letter a "i".
Proof. each_ascii a. Qed.
Lemma lower_is_t a : Ascii.eqb (ascii_lower a) "t" = same_letter a "t".
Proof. each_ascii a. Qed.
Lemma lower_is_e a : Ascii.eqb (ascii_lower a) "e" = same_letter a "e".
Proof. each_ascii a. Qed.
Lemma lower_is_x a : Ascii.eqb (ascii_lower a) "x" = same_letter a "x".
Proof. each_ascii a. Qed.

Lemma is_terminator_caseless (s : string) :
  is_terminator s = caseless_eqb s "quit" || caseless_eqb s "exit".
Proof.
  unfold is_terminator. simpl. rewrite orb_false_r.
  rewrite !lower_eqb_caseless; [done|..]; simpl;
    repeat constructor;
    auto using lower_is_q, lower_is_u, lower_is_i, lower_is_t, lower_is_e,
      lower_is_x.
Qed.

Lemma is_terminator_lower (s : string) :
  is_terminator s = true ↔ lower s = "quit" ∨ lower s = "exit".
Proof.
  unfold is_terminator. simpl. rewrite orb_false_r, orb_true_iff.
  by rewrite !String.eqb_eq.
Qed.

(** ** The prompt loop *)

Lemma conversation_loop_terminator env line rest :
  is_terminator line = true →
  conversation_loop env (line :: rest) = ([EvPrompt; EvFarewell], Ended).
Proof. intros H. simpl. by rewrite H. Qed.

Lemma conversation_loop_query env line rest :
  is_terminator line = false →
  conversation_loop env (line :: rest) = query_turn env line rest.
Proof.
  intros H. simpl. rewrite H. unfold query_turn.
  destruct (answer_query env line) as [out [e|]]; [done|].
  by destruct (conversation_loop env rest).
Qed.

Lemma answer_query_shape env query out :
  answer_query env query = (out, None) →
  ∃ chunks, out = [EvQuestion query; EvAnswer] ++ (EvText <$> chunks) ++ [EvBlank].
Proof.
  unfold answer_query.
  destruct (get_relevant_documents env query 10) as [top_docs|e]; [|done].
  destruct (raised _) eqn:E; [done|]. intros [= <-]. eauto.
Qed.

Lemma conversation_loop_turns env before rest :
  Forall (λ l, is_terminator l = false ∧ (answer_query env l).2 = None) before →
  conversation_loop env (before ++ rest)
  = (turns env before ++ (conversation_loop env rest).1,
     (conversation_loop env rest).2).
Proof.
  intros Hb. induction Hb as [|l before [Hl Hnone] _ IH].
  - simpl. by destruct (conversation_loop env rest).
  - change ((l :: before) ++ rest) with (l :: (before ++ rest)).
    rewrite conversation_loop_query by done. unfold query_turn.
    destruct (answer_query env l) as [out r] eqn:E. simpl in Hnone. subst r.
    rewrite IH. unfold turns. simpl. rewrite E. simpl.
    by rewrite <- app_assoc.
Qed.

(** C7, as amended. An exception raised during a turn is not caught: it
    leaves the loop and ends the whole session. After any run of turns that
    went well, a turn that raises ends the session with that exception;
    what the turn printed before the error stays, and no later line is
    read. *)
Theorem conversation_loop_error_propagates (env : Collaborators)
    (before : list string) (line : string) (rest : list string)
    (out : list Event) (e : Exn) :
  Forall (λ l, is_terminator l = false ∧ (answer_query env l).2 = None) before →
  is_terminator line = false →
  answer_query env line = (out, Some e) →
  conversation_loop env (before ++ line :: rest)
  = (turns env before ++ EvPrompt :: out, Uncaught e).
Proof.
  intros Hb Hl He. rewrite conversation_loop_turns by done.
  rewrite conversation_loop_query by done. unfold query_turn. by rewrite He.
Qed.

Lemma conversation_loop_error_propagates_witness :
  Forall (λ l, is_terminator l = false ∧ (answer_query mixed_env l).2 = None)
         ["hello"]
  ∧ is_terminator "tie" = false
  ∧ answer_query mixed_env "tie" = ([], Some TypeError)
  ∧ conversation_loop mixed_env (["hello"] ++ "tie" :: ["again"; "quit"])
    = (turns mixed_env ["hello"] ++ EvPrompt :: [], Uncaught TypeError).
Proof.
  assert (Forall (λ l, is_terminator l = false
                       ∧ (answer_query mixed_env l).2 = None) ["hello"]) as Hb.
  { repeat constructor. }
  split_and!; [exact Hb | reflexivity | reflexivity |].
  apply (conversation_loop_error_propagates mixed_env ["hello"] "tie"
           ["again"; "quit"] [] TypeError Hb); reflexivity.
Defined.

(** C7 as stated fails. A rerank failure, and likewise a backend failure in
    the middle of the answer, ends the session: the next line is never
    prompted for. *)
Lemma error_mid_turn_ends_session :
  answer_query tied_env "what is scrum" = ([], Some TypeError)
  ∧ conversation_loop tied_env ["what is scrum"; "next"]
    = ([EvPrompt], Uncaught TypeError)
  ∧ conversation_loop broken_env ["what is scrum"; "next"]
    = ([EvPrompt; EvQuestion "what is scrum"; EvAnswer; EvText "Scrum "],
       Uncaught (ExternalError "ResponseError")).
Proof. split_and!; reflexivity. Qed.

Lemma answer_query_returned env query top_docs :
  get_relevant_documents env query 10 = Ok top_docs →
  answer_query env query
  = ([EvQuestion query; EvAnswer]
       ++ (EvText <$> yielded (callModel env (build_context top_docs) query))
       ++ match raised (callModel env (build_context top_docs) query) with
          | Some _ => []
          | None => [EvBlank]
          end,
     raised (callModel env (build_context top_docs) query)).
Proof. intros H. unfold answer_query. by rewrite H. Qed.

Lemma answer_query_not_retrieved env query e :
  get_relevant_documents env query 10 = Raise e →
  answer_query env query = ([], Some e).
Proof. intros H. unfold answer_query. by rewrite H. Qed.

Lemma lower_length (s : string) : String.length (lower s) = String.length s.
Proof. induction s as [|c s IH]; [done | exact (f_equal S IH)]. Qed.

(** C8, as amended. A line that is [quit] or [exit] up to the case of its
    letters ends the session normally, whatever follows it. Any other
    line is the query of a turn. When retrieval, reranking and generation
    raise nothing, the turn prints the question, the answer tag, every
    piece that [callModel] yields for the context of the reranked
    documents and the closing blank line, and only then the loop prompts
    again. When retrieval or reranking raises, nothing is printed, and
    when the stream breaks, the pieces sent so far are; in both cases
    the exception ends the session and there is no next prompt. *)
Theorem conversation_loop_step (env : Collaborators) (line : string)
    (rest : list string) :
  (caseless_eqb line "quit" || caseless_eqb line "exit" = true →
   conversation_loop env (line :: rest) = ([EvPrompt; EvFarewell], Ended))
  ∧ (caseless_eqb line "quit" || caseless_eqb line "exit" = false →
     (∀ e, get_relevant_documents env line 10 = Raise e →
        conversation_loop env (line :: rest) = ([EvPrompt], Uncaught e))
     ∧ (∀ top_docs, get_relevant_documents env line 10 = Ok top_docs →
          match raised (callModel env (build_context top_docs) line) with
          | None =>
              conversation_loop env (line :: rest)
              = (EvPrompt :: [EvQuestion line; EvAnswer]
                   ++ (EvText
                         <$> yielded (callModel env (build_context top_docs) line))
                   ++ [EvBlank] ++ (conversation_loop env rest).1,
                 (conversation_loop env rest).2)
          | Some e =>
              conversation_loop env (line :: rest)
              = (EvPrompt :: [EvQuestion line; EvAnswer]
                   ++ (EvText
                         <$> yielded (callModel env (build_context top_docs) line)),
                 Uncaught e)
          end)).
Proof.
  rewrite <- is_terminator_caseless. split; intros H.
  - by apply conversation_loop_terminator.
  - rewrite conversation_loop_query by done. unfold query_turn. split.
    + intros e He. by rewrite (answer_query_not_retrieved _ _ _ He).
    + intros top_docs Hd. rewrite (answer_query_returned _ _ _ Hd).
      destruct (raised _) as [e|].
      * by rewrite app_nil_r.
      * by rewrite <- !app_assoc.
Qed.

(** C8 as stated fails: a line that is no terminator need not produce a
    question and answer. When the retriever cannot be reached, the turn
    prints nothing and the session ends with the retriever's exception. *)
Lemma query_line_without_answer :
  caseless_eqb "what is scrum" "quit" || caseless_eqb "what is scrum" "exit"
  = false
  ∧ conversation_loop offline_env ["what is scrum"; "quit"]
    = ([EvPrompt], Uncaught (ExternalError "ConnectionError"))
  ∧ EvQuestion "what is scrum"
    ∉ (conversation_loop offline_env ["what is scrum"; "quit"]).1.
Proof.
  split_and!; [reflexivity | reflexivity |].
  intros [H|H]%elem_of_cons; [discriminate H | by apply elem_of_nil in H].
Qed.

(** C10. The check lowercases the raw line and trims nothing. A line is a
    terminator exactly when it is [quit] or [exit] up to the case of its
    letters, character for character. So a terminator with anything put
    before or after it, such as a blank, is no terminator, and the loop
    hands that line as it is to [answer_query]; and so does every line
    whose lowercase form is not exactly [quit] or [exit]. *)
Theorem terminator_check_untrimmed (env : Collaborators) (line : string)
    (rest : list string) :
  is_terminator line = caseless_eqb line "quit" || caseless_eqb line "exit"
  ∧ (is_terminator line = true →
     ∀ l r, l ≠ "" ∨ r ≠ "" →
       is_terminator (l +:+ line +:+ r) = false
       ∧ conversation_loop env ((l +:+ line +:+ r) :: rest)
         = query_turn env (l +:+ line +:+ r) rest)
  ∧ (lower line ≠ "quit" → lower line ≠ "exit" →
     is_terminator line = false
     ∧ conversation_loop env (line :: rest) = query_turn env line rest).
Proof.
  assert (∀ s, is_terminator s = true → String.length s = 4%nat) as Hfour.
  { intros s [H|H]%is_terminator_lower; by rewrite <- lower_length, H. }
  split_and!.
  - apply is_terminator_caseless.
  - intros Ht l r Hlr.
    assert (is_terminator (l +:+ line +:+ r) = false) as Hpad.
    { destruct (is_terminator (l +:+ line +:+ r)) eqn:E; [|done].
      apply Hfour in E, Ht. rewrite !string_length_app, Ht in E.
      destruct Hlr as [Hl|Hr].
      - destruct l; [done | simpl in E; lia].
      - destruct r; [done | simpl in E; lia]. }
    split; [done|]. by apply conversation_loop_query.
  - intros Hq He.
    assert (is_terminator line = false) as H.
    { destruct (is_terminator line) eqn:E; [|done].
      apply is_terminator_lower in E as [?|?]; done. }
    split; [done|]. by apply conversation_loop_query.
Qed.

Lemma padded_not_terminator (s : string) :
  is_terminator (" " +:+ s) = false ∧ is_terminator (s +:+ " ") = false.
Proof.
  assert (∀ t u : string, u = "quit" ∨ u = "exit" → t +:+ " " ≠ u) as Hlast.
  { intros t u Hu Ht.
    do 5 (destruct t as [|? t]; [by destruct Hu; subst u|]).
    destruct Hu; subst u; discriminate Ht. }
  assert (∀ t, lower (t +:+ " ") = lower t +:+ " ") as Hlow.
  { induction t as [|c t IH]; [done|]. exact (f_equal (String _) IH). }
  split.
  - destruct (is_terminator (" " +:+ s)) eqn:E; [|done].
    apply is_terminator_lower in E as [E|E]; discriminate E.
  - destruct (is_terminator (s +:+ " ")) eqn:E; [|done].
    apply is_terminator_lower in E as [E|E]; rewrite Hlow in E;
      apply Hlast in E; tauto.
Qed.

(** ** Rank fusion *)

Lemma dom_accumulate w i l (acc : gmap string Q) :
  dom (accumulate w i l acc) = dom acc ∪ chunk_ids l.
Proof.
  revert i acc. induction l as [|r l IH]; intros i acc; simpl.
  - unfold chunk_ids. simpl. by rewrite (right_id_L ∅ (∪)).
  - rewrite IH, dom_insert_L. unfold chunk_ids. rewrite fmap_cons. simpl.
    by rewrite (comm_L (∪) {[chunkId r]} (dom acc)), (assoc_L (∪)).
Qed.

Lemma rank_fusion_ok_length w_s w_l sem lex fused :
  rank_fusion w_s w_l sem lex = Ok fused →
  length fused = size (chunk_ids sem ∪ chunk_ids lex).
Proof.
  unfold rank_fusion. destruct (valid_weights w_s w_l); [|done].
  intros [= <-]. rewrite length_imap, merge_sort_Permutation.
  rewrite length_map_to_list, <- size_dom, !dom_accumulate, dom_empty_L.
  by rewrite (left_id_L ∅ (∪)).
Qed.

Lemma size_union_overlap (X Y : gset string) :
  size (X ∪ Y) = (size X + size Y - size (X ∩ Y))%nat.
Proof.
  rewrite size_union_alt, size_difference_alt.
  rewrite (comm_L (∩) Y X).
  assert (size (X ∩ Y) ≤ size Y)%nat
    by apply subseteq_size, intersection_subseteq_r.
  lia.
Qed.

(** C5. With valid weights, fusion returns a list whose length is the size
    of the union of the two lists' chunk-id sets, whatever that size is; two
    lists of five distinct chunks each that share two chunk ids fuse to
    eight results. *)
Theorem rank_fusion_length (w_s w_l : Q) (sem lex : list ScoredResult) :
  valid_weights w_s w_l = true →
  ∃ fused,
    rank_fusion w_s w_l sem lex = Ok fused
    ∧ length fused = size (chunk_ids sem ∪ chunk_ids lex)
    ∧ (NoDup (chunkId <$> sem) → NoDup (chunkId <$> lex) →
       length sem = 5%nat → length lex = 5%nat →
       size (chunk_ids sem ∩ chunk_ids lex) = 2%nat →
       length fused = 8%nat).
Proof.
  intros Hw.
  destruct (rank_fusion w_s w_l sem lex) as [fused|e] eqn:E.
  - exists fused. pose proof (rank_fusion_ok_length _ _ _ _ _ E) as Hlen.
    split_and!; [done..|].
    intros Hs Hl Hsem Hlex Hcap.
    rewrite Hlen, size_union_overlap, Hcap. unfold chunk_ids.
    rewrite !size_list_to_set, !length_fmap by done. lia.
  - unfold rank_fusion in E. by rewrite Hw in E.
Qed.

Lemma rank_fusion_length_witness :
  valid_weights (7 # 10) (3 # 10) = true
  ∧ ∃ fused,
      rank_fusion (7 # 10) (3 # 10) sample_semantic sample_lexical = Ok fused
      ∧ length fused = 8%nat.
Proof.
  split; [reflexivity|].
  destruct (rank_fusion_length (7 # 10) (3 # 10) sample_semantic sample_lexical)
    as (fused & Hf & _ & H8); [reflexivity|].
  exists fused. split; [exact Hf|].
  apply H8; [| | reflexivity | reflexivity | by vm_compute].
  - vm_compute. repeat (constructor; [by (repeat (rewrite elem_of_cons); rewrite elem_of_nil; intuition discriminate)|]). constructor.
  - vm_compute. repeat (constructor; [by (repeat (rewrite elem_of_cons); rewrite elem_of_nil; intuition discriminate)|]). constructor.
Defined.

(** ** Sample runs *)

Example query_doc_sample :
  query_doc Z.eqb Z.ltb length_score scorer_returns "q"
    [doc_of "a"; doc_of "ccc"; doc_of "bb"; doc_of "a"] 3
  = Ok [doc_of "ccc"; doc_of "bb"; doc_of "a"].
Proof. reflexivity. Qed.

Example callModel_sample :
  callModel sample_env "context" "what is scrum"
  = mkGenerated ["Scrum "; "uses sprints."] [mkChunk false "late"] None.
Proof. reflexivity. Qed.

Example session_sample :
  session sample_env ["what is scrum"; " quit"; "QuIt"; "more"]
  = ([EvBanner;
      EvPrompt; EvQuestion "what is scrum"; EvAnswer;
      EvText "Scrum "; EvText "uses sprints."; EvBlank;
      EvPrompt; EvQuestion " quit"; EvAnswer;
      EvText "Scrum "; EvText "uses sprints."; EvBlank;
      EvPrompt; EvFarewell],
     Ended).
Proof. reflexivity. Qed.

Example rank_fusion_sample :
  ∃ fused,
    rank_fusion (7 # 10) (3 # 10) sample_semantic sample_lexical = Ok fused
    ∧ chunkId <$> fused = ["c1"; "c4"; "c2"; "c5"; "c3"; "c6"; "c7"; "c8"].
Proof. eexists. split; [vm_compute; reflexivity | reflexivity]. Qed.

(** * Further properties *)

(** ** The ranking that [query_doc] returns *)

Lemma forallb_false {A} (f : A → bool) (l : list A) :
  forallb f l = false → ∃ x, x ∈ l ∧ f x = false.
Proof.
  induction l as [|a l IH]; simpl; [done|].
  destruct (f a) eqn:E; simpl.
  - intros (x & Hx & Hf)%IH. exists x. split; [by right | done].
  - intros _. exists a. split; [by left | done].
Qed.

Lemma py_slice_to_take {A} (l : list A) (k : Z) :
  ∃ m, py_slice_to l k = take m l.
Proof. unfold py_slice_to. destruct (k <? 0); eauto. Qed.

Section RankingFacts.
Context {Score : Type}.
Variable score_eqb : Score → Score → bool.
Variable score_ltb : Score → Score → bool.
Variable predict : string → string → Score.
Variable predict_error : list (string * string) → option string.

Local Abbreviation sorted_reverse := (sorted_reverse score_eqb score_ltb).
Local Abbreviation scored := (scored predict).
Local Abbreviation sorted_docs :=
  (sorted_docs score_eqb score_ltb predict predict_error).
Local Abbreviation query_doc :=
  (query_doc score_eqb score_ltb predict predict_error).
Local Abbreviation clash := (clash score_eqb).
Local Abbreviation ties_agree := (ties_agree score_eqb).
Local Abbreviation desc := (desc score_ltb).
Local Abbreviation ranked := (ranked score_ltb predict).
Local Abbreviation score_of := (score_of predict).

Lemma elem_of_scored query docs x :
  x ∈ scored query docs ↔ x.1 = score_of query x.2 ∧ x.2 ∈ docs.
Proof.
  unfold scored. change (map ?f docs) with (f <$> docs).
  rewrite list_elem_of_fmap. split.
  - intros (d & -> & Hd). done.
  - intros [H1 H2]. exists x.2. split; [|done].
    destruct x as [s d]. simpl in *. by subst.
Qed.

Lemma ties_disagree query docs :
  ties_agree (scored query docs) = false →
  ∃ d1 d2, d1 ∈ docs ∧ d2 ∈ docs ∧ d1 ≠ d2
           ∧ score_eqb (score_of query d1) (score_of query d2) = true.
Proof.
  unfold ties_agree.
  intros (x & Hx & (y & Hy & Hc)%forallb_false)%forallb_false.
  apply negb_false_iff in Hc. unfold clash, doc_eqb in Hc.
  apply andb_true_iff in Hc as [He Hd].
  apply negb_true_iff, bool_decide_eq_false in Hd.
  apply elem_of_scored in Hx as [Hx1 Hx2], Hy as [Hy1 Hy2].
  exists x.2, y.2. rewrite <- Hx1, <- Hy1. done.
Qed.

Lemma desc_ranked query (l : list (Score * Document)) :
  Forall (λ x, x.1 = score_of query x.2) l → desc l → ranked query (l.*2).
Proof.
  intros Hl Hs. induction Hs as [|x l _ IH Hx]; [constructor|].
  apply Forall_cons in Hl as [Hx1 Hl]. rewrite fmap_cons.
  constructor; [by apply IH|].
  rewrite Forall_fmap. rewrite Forall_forall in Hx, Hl |- *.
  intros y Hy. simpl. rewrite <- Hx1, <- (Hl y Hy). by apply Hx.
Qed.

Lemma sorted_docs_ranked query docs r :
  ScoreOrder score_eqb score_ltb →
  sorted_docs query docs = Ok r → ranked query r.
Proof.
  intros Ho (_ & r' & Ha & ->)%sorted_docs_Ok_inv.
  destruct (sorted_reverse_desc score_eqb score_ltb Ho _ _ Ha) as [Hp Hd].
  apply desc_ranked; [|done].
  apply Forall_forall. intros x Hx. rewrite Hp in Hx.
  by apply elem_of_scored in Hx as [? _].
Qed.

Lemma sorted_reverse_perm_eq (l l' : list (Score * Document)) :
  ScoreOrder score_eqb score_ltb →
  (∀ a b, score_ltb a b = false → score_ltb b a = false → a = b) →
  l ≡ₚ l' → sorted_reverse l = sorted_reverse l'.
Proof.
  intros Ho Htot Hp. destruct (ties_agree l) eqn:Ht.
  - assert (ties_agree l' = true) as Ht'.
    { apply ties_agree_spec. intros x y Hx Hy. rewrite <- Hp in Hx, Hy.
      revert x y Hx Hy. by apply ties_agree_spec. }
    destruct (sorted_reverse_ok _ score_ltb _ Ht) as [r Hr].
    destruct (sorted_reverse_ok _ score_ltb _ Ht') as [r' Hr'].
    rewrite Hr, Hr'. f_equal.
    destruct (sorted_reverse_desc _ _ Ho _ _ Hr) as [Hpr Hdr].
    destruct (sorted_reverse_desc _ _ Ho _ _ Hr') as [Hpr' Hdr'].
    eapply StronglySorted_unique_strong; [|exact Hdr|exact Hdr'|].
    + intros x1 x2 Hx1 Hx2 H12 H21. rewrite Hpr in Hx1. rewrite Hpr', <- Hp in Hx2.
      pose proof (Htot _ _ H12 H21) as Hs.
      pose proof (proj1 (ties_agree_spec _ _) Ht x1 x2 Hx1 Hx2) as Hc.
      unfold clash, doc_eqb in Hc.
      rewrite (proj2 (score_eqb_eq _ _ Ho _ _) Hs) in Hc. simpl in Hc.
      apply negb_false_iff, bool_decide_eq_true in Hc.
      destruct x1, x2. simpl in *. by subst.
    + by rewrite Hpr, Hpr'.
  - unfold ties_agree in Ht.
    apply forallb_false in Ht as (x & Hx & (y & Hy & Hc)%forallb_false).
    apply negb_false_iff in Hc.
    rewrite (sorted_reverse_clash _ _ Ho l x y) by done.
    rewrite (sorted_reverse_clash _ _ Ho l' x y); [done|by rewrite <- Hp..|done].
Qed.

End RankingFacts.

(** X1. Whatever [query_doc] returns is drawn from its candidates: no
    document is returned that was not passed in, and none more often than
    it was passed in. *)
Theorem query_doc_returns_candidates {Score : Type}
    (score_eqb score_ltb : Score → Score → bool)
    (predict : string → string → Score)
    (predict_error : list (string * string) → option string) (query : string)
    (docs : list Document) (top_k : Z) (out : list Document) :
  query_doc score_eqb score_ltb predict predict_error query docs top_k = Ok out →
  out ⊆+ docs.
Proof.
  intros (r & _ & Hp & ->)%query_doc_inv.
  destruct (py_slice_to_take r top_k) as [m ->].
  rewrite <- Hp. apply sublist_submseteq, sublist_take.
Qed.

Lemma query_doc_returns_candidates_witness :
  query_doc Z.eqb Z.ltb length_score scorer_returns "q" sample_docs 1 = Ok [doc_of "bb"]
  ∧ [doc_of "bb"] ⊆+ sample_docs.
Proof.
  split; [reflexivity|].
  apply (query_doc_returns_candidates Z.eqb Z.ltb length_score scorer_returns "q"
           sample_docs 1). reflexivity.
Defined.

(** X2. The list that [query_doc] returns is in descending order of the
    cross encoder's score: no returned document is followed by one with a
    greater score. *)
Theorem query_doc_ranked {Score : Type}
    (score_eqb score_ltb : Score → Score → bool)
    (predict : string → string → Score)
    (predict_error : list (string * string) → option string) (query : string)
    (docs : list Document) (top_k : Z) (out : list Document) :
  ScoreOrder score_eqb score_ltb →
  query_doc score_eqb score_ltb predict predict_error query docs top_k = Ok out →
  ranked score_ltb predict query out.
Proof.
  intros Ho (r & Hr & _ & ->)%query_doc_inv.
  apply (sorted_docs_ranked _ _ _ _ _ _ _ Ho) in Hr.
  destruct (py_slice_to_take r top_k) as [m ->].
  unfold ranked in *. rewrite <- (take_drop m r) in Hr.
  by apply StronglySorted_app_1_l in Hr.
Qed.

Lemma query_doc_ranked_witness :
  ScoreOrder Z.eqb Z.ltb
  ∧ query_doc Z.eqb Z.ltb length_score scorer_returns "q"
      [doc_of "a"; doc_of "ccc"; doc_of "bb"] 2
    = Ok [doc_of "ccc"; doc_of "bb"]
  ∧ ranked Z.ltb length_score "q" [doc_of "ccc"; doc_of "bb"].
Proof.
  split_and!; [apply Z_score_order | reflexivity |].
  apply (query_doc_ranked Z.eqb Z.ltb length_score scorer_returns "q"
           [doc_of "a"; doc_of "ccc"; doc_of "bb"] 2 _ Z_score_order).
  reflexivity.
Defined.

(** X3. [query_doc] keeps the best candidates: the candidates it leaves
    out, together with the ones it returns, make up the candidate list,
    and no returned document scores less than one that was left out. *)
Theorem query_doc_keeps_best {Score : Type}
    (score_eqb score_ltb : Score → Score → bool)
    (predict : string → string → Score)
    (predict_error : list (string * string) → option string) (query : string)
    (docs : list Document) (top_k : Z) (out : list Document) :
  ScoreOrder score_eqb score_ltb →
  query_doc score_eqb score_ltb predict predict_error query docs top_k = Ok out →
  ∃ dropped,
    out ++ dropped ≡ₚ docs
    ∧ ∀ d d', d ∈ out → d' ∈ dropped →
        score_ltb (score_of predict query d) (score_of predict query d') = false.
Proof.
  intros Ho (r & Hr & Hp & ->)%query_doc_inv.
  apply (sorted_docs_ranked _ _ _ _ _ _ _ Ho) in Hr.
  destruct (py_slice_to_take r top_k) as [m ->].
  exists (drop m r). rewrite take_drop. split; [done|].
  intros d d' Hd Hd'. unfold ranked in Hr. rewrite <- (take_drop m r) in Hr.
  by apply (StronglySorted_app_1_elem_of _ _ _ _ _ Hr).
Qed.

Lemma query_doc_keeps_best_witness :
  ScoreOrder Z.eqb Z.ltb
  ∧ query_doc Z.eqb Z.ltb length_score scorer_returns "q"
      [doc_of "a"; doc_of "ccc"; doc_of "bb"] 2
    = Ok [doc_of "ccc"; doc_of "bb"]
  ∧ ∃ dropped,
      [doc_of "ccc"; doc_of "bb"] ++ dropped
        ≡ₚ [doc_of "a"; doc_of "ccc"; doc_of "bb"]
      ∧ ∀ d d', d ∈ [doc_of "ccc"; doc_of "bb"] → d' ∈ dropped →
          Z.ltb (score_of length_score "q" d) (score_of length_score "q" d')
          = false.
Proof.
  split_and!; [apply Z_score_order | reflexivity |].
  apply (query_doc_keeps_best Z.eqb Z.ltb length_score scorer_returns "q"
           [doc_of "a"; doc_of "ccc"; doc_of "bb"] 2 _ Z_score_order).
  reflexivity.
Defined.

(** X4. [top_k] only truncates: for [0 <= k1 <= k2], the result for [k1] is
    the first [k1] documents of the result for [k2]. *)
Theorem query_doc_prefix {Score : Type}
    (score_eqb score_ltb : Score → Score → bool)
    (predict : string → string → Score)
    (predict_error : list (string * string) → option string) (query : string)
    (docs : list Document) (k1 k2 : Z) (out2 : list Document) :
  0 ≤ k1 → k1 ≤ k2 →
  query_doc score_eqb score_ltb predict predict_error query docs k2 = Ok out2 →
  query_doc score_eqb score_ltb predict predict_error query docs k1
  = Ok (take (Z.to_nat k1) out2).
Proof.
  intros H1 H2 (r & Hr & _ & ->)%query_doc_inv.
  unfold query_doc. rewrite Hr. simpl. f_equal. unfold py_slice_to.
  destruct (Z.ltb_spec k1 0), (Z.ltb_spec k2 0); try lia.
  rewrite take_take. f_equal. lia.
Qed.

Lemma query_doc_prefix_witness :
  0 ≤ 1 ∧ 1 ≤ 2
  ∧ query_doc Z.eqb Z.ltb length_score scorer_returns "q"
      [doc_of "a"; doc_of "ccc"; doc_of "bb"] 2
    = Ok [doc_of "ccc"; doc_of "bb"]
  ∧ query_doc Z.eqb Z.ltb length_score scorer_returns "q"
      [doc_of "a"; doc_of "ccc"; doc_of "bb"] 1
    = Ok (take (Z.to_nat 1) [doc_of "ccc"; doc_of "bb"]).
Proof.
  split_and!; [lia | lia | reflexivity |].
  apply (query_doc_prefix Z.eqb Z.ltb length_score scorer_returns "q"
           [doc_of "a"; doc_of "ccc"; doc_of "bb"] 1 2); [lia | lia |].
  reflexivity.
Defined.

(** X5. The order in which the candidates are passed in does not matter:
    for scores in a strict total order and a [predict] call that fares the
    same on both batches, two candidate lists that hold the same documents
    get the same result from [query_doc], be it a ranking, the TypeError
    of a tie or the exception of [predict]. *)
Theorem query_doc_order_independent {Score : Type}
    (score_eqb score_ltb : Score → Score → bool)
    (predict : string → string → Score)
    (predict_error : list (string * string) → option string) (query : string)
    (docs docs' : list Document) (top_k : Z) :
  ScoreOrder score_eqb score_ltb →
  (∀ a b, score_ltb a b = false → score_ltb b a = false → a = b) →
  docs ≡ₚ docs' →
  predict_error (query_doc_pair query docs)
  = predict_error (query_doc_pair query docs') →
  query_doc score_eqb score_ltb predict predict_error query docs top_k
  = query_doc score_eqb score_ltb predict predict_error query docs' top_k.
Proof.
  intros Ho Htot Hp He. unfold query_doc.
  destruct (predict_error (query_doc_pair query docs)) as [name|] eqn:E.
  - rewrite (sorted_docs_scorer_raises _ _ _ _ _ _ _ E).
    by rewrite (sorted_docs_scorer_raises _ _ _ _ _ _ _ (eq_sym He)).
  - rewrite (sorted_docs_returned _ _ _ _ _ _ E).
    rewrite (sorted_docs_returned _ _ _ _ _ _ (eq_sym He)).
    rewrite (sorted_reverse_perm_eq score_eqb score_ltb
               (scored predict query docs) (scored predict query docs')
               Ho Htot); [done|].
    unfold scored. by apply Permutation_map.
Qed.

Lemma Z_ltb_total (a b : Z) : Z.ltb a b = false → Z.ltb b a = false → a = b.
Proof. rewrite !Z.ltb_ge. lia. Qed.

Lemma query_doc_order_independent_witness :
  ScoreOrder Z.eqb Z.ltb
  ∧ (∀ a b, Z.ltb a b = false → Z.ltb b a = false → a = b)
  ∧ [doc_of "a"; doc_of "bb"] ≡ₚ [doc_of "bb"; doc_of "a"]
  ∧ scorer_returns (query_doc_pair "q" [doc_of "a"; doc_of "bb"])
    = scorer_returns (query_doc_pair "q" [doc_of "bb"; doc_of "a"])
  ∧ query_doc Z.eqb Z.ltb length_score scorer_returns "q"
      [doc_of "a"; doc_of "bb"] 10
    = query_doc Z.eqb Z.ltb length_score scorer_returns "q"
        [doc_of "bb"; doc_of "a"] 10.
Proof.
  assert ([doc_of "a"; doc_of "bb"] ≡ₚ [doc_of "bb"; doc_of "a"]) as Hp
    by apply Permutation_swap.
  split_and!;
    [apply Z_score_order | apply Z_ltb_total | exact Hp | reflexivity |].
  apply (query_doc_order_independent Z.eqb Z.ltb length_score scorer_returns
           "q" _ _ 10 Z_score_order Z_ltb_total Hp eq_refl).
Defined.

(** X6. [query_doc] fails in two ways only: [cross_encoder.predict] raises
    and its exception comes through unchanged, or [predict] returned, two
    different candidates have equal scores and [sorted] raises
    TypeError. *)
Theorem query_doc_failures {Score : Type}
    (score_eqb score_ltb : Score → Score → bool)
    (predict : string → string → Score)
    (predict_error : list (string * string) → option string) (query : string)
    (docs : list Document) (top_k : Z) (e : Exn) :
  query_doc score_eqb score_ltb predict predict_error query docs top_k
  = Raise e →
  (∃ name, predict_error (query_doc_pair query docs) = Some name
           ∧ e = ScorerError name)
  ∨ (predict_error (query_doc_pair query docs) = None
     ∧ e = TypeError
     ∧ ∃ d1 d2, d1 ∈ docs ∧ d2 ∈ docs ∧ d1 ≠ d2
         ∧ score_eqb (score_of predict query d1) (score_of predict query d2)
           = true).
Proof.
  intros H.
  destruct (query_doc_raises _ _ _ _ _ _ _ _ H) as [?|(Hp & -> & _)];
    [by left|]. right. split_and!; [done..|].
  apply ties_disagree.
  destruct (ties_agree score_eqb (scored predict query docs)) eqn:Ht; [|done].
  apply (query_doc_ok score_eqb score_ltb predict predict_error query docs
           top_k Hp) in Ht as [out Hout].
  congruence.
Qed.

Lemma query_doc_failures_witness :
  query_doc Z.eqb Z.ltb length_score raises_on_empty "q" [] 10
  = Raise (ScorerError "IndexError")
  ∧ ((∃ name, raises_on_empty (query_doc_pair "q" []) = Some name
              ∧ ScorerError "IndexError" = ScorerError name)
     ∨ (raises_on_empty (query_doc_pair "q" []) = None
        ∧ ScorerError "IndexError" = TypeError
        ∧ ∃ d1 d2, d1 ∈ [] ∧ d2 ∈ [] ∧ d1 ≠ d2
            ∧ Z.eqb (score_of length_score "q" d1)
                    (score_of length_score "q" d2) = true)).
Proof.
  split; [reflexivity|].
  apply (query_doc_failures Z.eqb Z.ltb length_score raises_on_empty "q"
           [] 10). reflexivity.
Defined.

(** X7. A negative [top_k] cuts the ranking from its end: the call returns
    the whole ranking without its last [-top_k] documents (nothing, when
    there are no more than that). *)
Theorem query_doc_negative_top_k_drops {Score : Type}
    (score_eqb score_ltb : Score → Score → bool)
    (predict : string → string → Score)
    (predict_error : list (string * string) → option string) (query : string)
    (docs : list Document) (top_k : Z) (out : list Document) :
  top_k < 0 →
  query_doc score_eqb score_ltb predict predict_error query docs top_k = Ok out →
  ∃ last,
    sorted_docs score_eqb score_ltb predict predict_error query docs = Ok (out ++ last)
    ∧ length last = Nat.min (Z.to_nat (- top_k)) (length docs).
Proof.
  intros Hk (r & Hr & Hp & ->)%query_doc_inv.
  unfold py_slice_to. destruct (Z.ltb_spec top_k 0); [|lia].
  exists (drop (Z.to_nat (Z.of_nat (length r) + top_k)) r).
  rewrite take_drop. split; [done|].
  rewrite length_drop, <- Hp. lia.
Qed.

Lemma query_doc_negative_top_k_drops_witness :
  -1 < 0
  ∧ query_doc Z.eqb Z.ltb length_score scorer_returns "q" sample_docs (-1) = Ok [doc_of "bb"]
  ∧ ∃ last,
      sorted_docs Z.eqb Z.ltb length_score scorer_returns "q" sample_docs
      = Ok ([doc_of "bb"] ++ last)
      ∧ length last = Nat.min (Z.to_nat (- -1)) (length sample_docs).
Proof.
  split_and!; [lia | reflexivity |].
  apply (query_doc_negative_top_k_drops Z.eqb Z.ltb length_score scorer_returns "q"
           sample_docs (-1)); [lia | reflexivity].
Defined.

(** ** The reranking retriever *)

(** X8. [get_relevant_documents] asks the base retriever for the query
    with [top_k=20], whatever its own [top_k] is; for [top_k >= 0] what it
    returns are at most [top_k] documents, all drawn from the retrieved
    ones. *)
Theorem get_relevant_documents_bound (env : Collaborators) (query : string)
    (top_k : Z) (out : list Document) :
  0 ≤ top_k →
  get_relevant_documents env query top_k = Ok out →
  ∃ retrieved,
    combined_retriever env query 20 = Ok retrieved
    ∧ out ⊆+ retrieved
    ∧ Z.of_nat (length out) ≤ top_k.
Proof.
  intros Hk H. unfold get_relevant_documents, reranker in H. py_inv.
  exists a. apply query_doc_inv in H as (r & _ & Hp & ->).
  split_and!; [done | |].
  - destruct (py_slice_to_take r top_k) as [m ->].
    rewrite <- Hp. apply sublist_submseteq, sublist_take.
  - rewrite py_slice_to_length_nonneg by done. lia.
Qed.

Lemma get_relevant_documents_bound_witness :
  0 ≤ 1
  ∧ get_relevant_documents sample_env "q" 1 = Ok [doc_of "bb"]
  ∧ ∃ retrieved,
      combined_retriever sample_env "q" 20 = Ok retrieved
      ∧ [doc_of "bb"] ⊆+ retrieved
      ∧ Z.of_nat (length [doc_of "bb"]) ≤ 1.
Proof.
  split_and!; [lia | reflexivity |].
  apply (get_relevant_documents_bound sample_env "q" 1); [lia | reflexivity].
Defined.

(** X9. [get_relevant_documents] fails in three ways only: the base
    retriever's exception comes through unchanged; or the retriever
    returned and [cross_encoder.predict] raises on the retrieved
    documents; or [predict] returned too, two different retrieved
    documents have equal scores and the reranker raises TypeError. *)
Theorem get_relevant_documents_raises (env : Collaborators) (query : string)
    (top_k : Z) (e : Exn) :
  get_relevant_documents env query top_k = Raise e →
  combined_retriever env query 20 = Raise e
  ∨ ∃ retrieved,
      combined_retriever env query 20 = Ok retrieved
      ∧ ((∃ name,
            cross_encoder_error env (query_doc_pair query retrieved) = Some name
            ∧ e = ScorerError name)
         ∨ (cross_encoder_error env (query_doc_pair query retrieved) = None
            ∧ e = TypeError
            ∧ ∃ d1 d2, d1 ∈ retrieved ∧ d2 ∈ retrieved ∧ d1 ≠ d2
                ∧ score_eqb env (score_of (cross_encoder env) query d1)
                                (score_of (cross_encoder env) query d2)
                  = true)).
Proof.
  unfold get_relevant_documents, reranker.
  intros [H|(retrieved & Hr & H)]%bind_Raise_inv; [by left|]. right.
  exists retrieved. split; [done|].
  destruct (query_doc_raises _ _ _ _ _ _ _ _ H) as [?|(Hp & -> & _)];
    [by left|]. right. split_and!; [done..|].
  apply ties_disagree.
  destruct (ties_agree (score_eqb env)
              (scored (cross_encoder env) query retrieved)) eqn:Ht; [|done].
  apply (query_doc_ok _ (score_ltb env) _ _ _ _ top_k Hp) in Ht as [out Hout].
  congruence.
Qed.

Lemma get_relevant_documents_raises_witness :
  get_relevant_documents empty_env "q" 10 = Raise (ScorerError "IndexError")
  ∧ (combined_retriever empty_env "q" 20 = Raise (ScorerError "IndexError")
     ∨ ∃ retrieved,
         combined_retriever empty_env "q" 20 = Ok retrieved
         ∧ ((∃ name,
               cross_encoder_error empty_env (query_doc_pair "q" retrieved)
               = Some name
               ∧ ScorerError "IndexError" = ScorerError name)
            ∨ (cross_encoder_error empty_env (query_doc_pair "q" retrieved)
               = None
               ∧ ScorerError "IndexError" = TypeError
               ∧ ∃ d1 d2, d1 ∈ retrieved ∧ d2 ∈ retrieved ∧ d1 ≠ d2
                   ∧ score_eqb empty_env
                       (score_of (cross_encoder empty_env) "q" d1)
                       (score_of (cross_encoder empty_env) "q" d2)
                     = true))).
Proof.
  split; [reflexivity|].
  apply (get_relevant_documents_raises empty_env "q" 10). reflexivity.
Defined.

(** ** The generator and the turn *)

Lemma callModel_loop_raised us fail e :
  raised (callModel_loop us fail) = Some e ↔ fail = Some e ∧ Forall pending us.
Proof.
  destruct (first_done_split us) as [Hall|(pre & d & post & -> & Hpre & Hd)].
  - rewrite callModel_loop_pending by done. simpl. tauto.
  - rewrite callModel_loop_done by done. simpl. split; [done|].
    intros [_ [_ Hall]%Forall_app]. apply Forall_cons in Hall as [Hd' _].
    unfold pending in Hd'. congruence.
Qed.

(** X10. The generator raises only the backend's own failure, and only
    when the stream broke before any unit said done. When no unit says
    done, every unit's content is yielded and nothing is left unread. *)
Theorem callModel_failure (env : Collaborators) (context prompt : string)
    (e : Exn) :
  (raised (callModel env context prompt) = Some e
   ↔ failure (chat_response env context prompt) = Some e
     ∧ Forall pending (units (chat_response env context prompt)))
  ∧ (Forall pending (units (chat_response env context prompt)) →
     yielded (callModel env context prompt)
     = message_content <$> units (chat_response env context prompt)
     ∧ unread (callModel env context prompt) = []).
Proof.
  unfold callModel. split; [apply callModel_loop_raised|].
  intros Hall. by rewrite callModel_loop_pending.
Qed.

(** X11. A turn that raises has printed either nothing, when retrieval or
    reranking failed, or the question, the answer tag and the content of
    every unit the backend sent before it broke; the closing blank line
    is not printed. *)
Theorem answer_query_failed_turn (env : Collaborators) (query : string)
    (out : list Event) (e : Exn) :
  answer_query env query = (out, Some e) →
  (out = [] ∧ get_relevant_documents env query 10 = Raise e)
  ∨ ∃ top_docs,
      get_relevant_documents env query 10 = Ok top_docs
      ∧ failure (chat_response env (build_context top_docs) query) = Some e
      ∧ out = [EvQuestion query; EvAnswer]
              ++ ((λ c, EvText (message_content c))
                  <$> units (chat_response env (build_context top_docs) query)).
Proof.
  unfold answer_query.
  destruct (get_relevant_documents env query 10) as [top_docs|e'] eqn:Hg.
  - intros [= <- Hr]. right. exists top_docs.
    unfold callModel in *. apply callModel_loop_raised in Hr as [Hf Hall].
    split_and!; [done..|].
    rewrite callModel_loop_pending by done. simpl.
    rewrite Hf. rewrite app_nil_r. f_equal. f_equal.
    by rewrite <- list_fmap_compose.
  - intros [= <- <-]. by left.
Qed.

Lemma answer_query_failed_turn_witness :
  answer_query broken_env "what is scrum"
  = ([EvQuestion "what is scrum"; EvAnswer; EvText "Scrum "],
     Some (ExternalError "ResponseError"))
  ∧ (([EvQuestion "what is scrum"; EvAnswer; EvText "Scrum "] = []
      ∧ get_relevant_documents broken_env "what is scrum" 10
        = Raise (ExternalError "ResponseError"))
     ∨ ∃ top_docs,
         get_relevant_documents broken_env "what is scrum" 10 = Ok top_docs
         ∧ failure (chat_response broken_env (build_context top_docs)
                      "what is scrum")
           = Some (ExternalError "ResponseError")
         ∧ [EvQuestion "what is scrum"; EvAnswer; EvText "Scrum "]
           = [EvQuestion "what is scrum"; EvAnswer]
             ++ ((λ c, EvText (message_content c))
                 <$> units (chat_response broken_env (build_context top_docs)
                              "what is scrum"))).
Proof.
  split; [reflexivity|].
  apply (answer_query_failed_turn broken_env "what is scrum"). reflexivity.
Defined.

(** ** The session *)

Lemma turns_cons env l ls :
  turns env (l :: ls) = EvPrompt :: (answer_query env l).1 ++ turns env ls.
Proof. done. Qed.

(** X13. Every session is of one of three kinds. All lines were queries
    whose turns went well, and the loop waits at the next prompt. Or the
    first line that is not such a query is a terminator, and the session
    ends normally after the farewell. Or it is a query whose turn raises,
    and the session ends with that exception. In each case the transcript
    is the turns before that line followed by what the line itself
    caused. *)
Theorem conversation_loop_outcome (env : Collaborators) (inputs : list string) :
  (Forall (completes env) inputs
   ∧ conversation_loop env inputs = (turns env inputs ++ [EvPrompt], AwaitingInput))
  ∨ (∃ before line rest,
       inputs = before ++ line :: rest ∧ Forall (completes env) before
       ∧ is_terminator line = true
       ∧ conversation_loop env inputs
         = (turns env before ++ [EvPrompt; EvFarewell], Ended))
  ∨ (∃ before line rest out e,
       inputs = before ++ line :: rest ∧ Forall (completes env) before
       ∧ is_terminator line = false
       ∧ answer_query env line = (out, Some e)
       ∧ conversation_loop env inputs
         = (turns env before ++ EvPrompt :: out, Uncaught e)).
Proof.
  induction inputs as [|l ls IH].
  - left. by split.
  - destruct (is_terminator l) eqn:Ht.
    { right. left. exists [], l, ls.
      by rewrite conversation_loop_terminator. }
    rewrite conversation_loop_query by done. unfold query_turn.
    destruct (answer_query env l) as [out [e|]] eqn:Ha.
    { right. right. by exists [], l, ls, out, e. }
    assert (completes env l) as Hl by (split; [done | by rewrite Ha]).
    assert (turns env (l :: ls) = EvPrompt :: out ++ turns env ls) as Hcons
      by (by rewrite turns_cons, Ha).
    destruct IH as [[Hall ->]|[(before & line & rest & -> & Hb & Hline & ->)
                              |(before & line & rest & o & e & -> & Hb & Hline & Ho & ->)]].
    + left. split; [by constructor|]. cbn [fst snd].
      by rewrite Hcons, <- app_comm_cons, <- app_assoc.
    + right. left. exists (l :: before), line, rest.
      split_and!; [done | by constructor | done |]. cbn [fst snd].
      rewrite turns_cons, Ha. cbn [fst snd].
      by rewrite <- app_comm_cons, <- app_assoc.
    + right. right. exists (l :: before), line, rest, o, e.
      split_and!; [done | by constructor | done | done |]. cbn [fst snd].
      rewrite turns_cons, Ha. cbn [fst snd].
      by rewrite <- app_comm_cons, <- app_assoc.
Qed.

(** X14. After any run of queries whose turns went well, a terminator
    line ends the session normally: the transcript is those turns, one
    more prompt and the farewell, and the lines after the terminator are
    never read. *)
Theorem conversation_loop_quit (env : Collaborators) (before : list string)
    (line : string) (rest : list string) :
  Forall (completes env) before →
  is_terminator line = true →
  conversation_loop env (before ++ line :: rest)
  = (turns env before ++ [EvPrompt; EvFarewell], Ended).
Proof.
  intros Hb Hl. rewrite conversation_loop_turns by exact Hb.
  by rewrite conversation_loop_terminator.
Qed.

Lemma conversation_loop_quit_witness :
  Forall (completes sample_env) ["what is scrum"]
  ∧ is_terminator "EXIT" = true
  ∧ conversation_loop sample_env (["what is scrum"] ++ "EXIT" :: ["ignored"])
    = (turns sample_env ["what is scrum"] ++ [EvPrompt; EvFarewell], Ended).
Proof.
  assert (Forall (completes sample_env) ["what is scrum"]) as Hb.
  { repeat constructor. }
  split_and!; [exact Hb | reflexivity |].
  apply (conversation_loop_quit sample_env ["what is scrum"] "EXIT"
           ["ignored"] Hb). reflexivity.
Defined.

(** X15. Once the session has ended, by a terminator or by an exception,
    further input changes nothing: the loop gives the same transcript and
    the same end whatever lines follow. *)
Theorem conversation_loop_ended (env : Collaborators)
    (inputs more : list string) :
  (conversation_loop env inputs).2 ≠ AwaitingInput →
  conversation_loop env (inputs ++ more) = conversation_loop env inputs.
Proof.
  induction inputs as [|l ls IH]; intros Hend; [done|].
  change ((l :: ls) ++ more) with (l :: (ls ++ more)).
  destruct (is_terminator l) eqn:Ht.
  { by rewrite !conversation_loop_terminator. }
  rewrite !conversation_loop_query in * by done. unfold query_turn in *.
  destruct (answer_query env l) as [out [e|]]; [done|].
  simpl in Hend. by rewrite IH.
Qed.

Lemma conversation_loop_ended_witness :
  (conversation_loop tied_env ["what is scrum"]).2 ≠ AwaitingInput
  ∧ conversation_loop tied_env (["what is scrum"] ++ ["next"; "quit"])
    = conversation_loop tied_env ["what is scrum"].
Proof.
  assert ((conversation_loop tied_env ["what is scrum"]).2 ≠ AwaitingInput)
    as Hend by discriminate.
  split; [exact Hend|].
  apply (conversation_loop_ended tied_env ["what is scrum"] ["next"; "quit"]
           Hend).
Defined.

(** ** The context and the terminator *)

(** X16. Joining is compositional: the context of two non-empty runs of
    documents is the context of the first, a newline, and the context of
    the second, so the documents stay in ranked order and exactly one
    newline separates neighbours. *)
Theorem build_context_app (a b : list Document) :
  a ≠ [] → b ≠ [] →
  build_context (a ++ b) = build_context a +:+ newline +:+ build_context b.
Proof.
  unfold build_context. intros Ha Hb.
  induction a as [|d a IH]; [done|]. clear Ha.
  destruct a as [|d' a].
  - simpl app. rewrite !map_cons. rewrite concat_cons; [done|].
    destruct b; [done | discriminate].
  - specialize (IH ltac:(discriminate)).
    change ((d :: d' :: a) ++ b) with (d :: ((d' :: a) ++ b)).
    rewrite (map_cons _ d ((d' :: a) ++ b)), (map_cons _ d (d' :: a)).
    rewrite concat_cons by (rewrite map_app; discriminate).
    rewrite IH, (concat_cons _ _ (map page_content (d' :: a))) by discriminate.
    by rewrite !string_app_assoc.
Qed.

Lemma build_context_app_witness :
  [doc_of "a"] ≠ [] ∧ [doc_of "bb"; doc_of "c"] ≠ []
  ∧ build_context ([doc_of "a"] ++ [doc_of "bb"; doc_of "c"])
    = build_context [doc_of "a"] +:+ newline
      +:+ build_context [doc_of "bb"; doc_of "c"].
Proof.
  split_and!; [discriminate | discriminate |].
  apply (build_context_app [doc_of "a"] [doc_of "bb"; doc_of "c"]);
    discriminate.
Defined.

(** X17. Only a line of exactly four characters can end the session: a
    line that holds a terminator word together with anything else, before
    or after it, is handled as a query. *)
Theorem is_terminator_length (line : string) :
  is_terminator line = true → String.length line = 4%nat.
Proof.
  intros [H|H]%is_terminator_lower;
    by rewrite <- lower_length, H.
Qed.

Lemma is_terminator_length_witness :
  is_terminator "QuIt" = true ∧ String.length "QuIt" = 4%nat.
Proof.
  split; [reflexivity|]. apply (is_terminator_length "QuIt"). reflexivity.
Defined.

Example terminator_samples :
  is_terminator "Quit" = true ∧ is_terminator "EXIT" = true
  ∧ is_terminator " quit" = false ∧ is_terminator "quit " = false
  ∧ is_terminator "quit now" = false ∧ is_terminator "" = false.
Proof. repeat split. Qed.

Example query_doc_scorer_sample :
  query_doc Z.eqb Z.ltb length_score raises_on_empty "q" [] 10
  = Raise (ScorerError "IndexError")
  ∧ query_doc Z.eqb Z.ltb length_score raises_on_empty "q" sample_docs 10
    = Ok [doc_of "bb"; doc_of "a"].
Proof. split; reflexivity. Qed.
